(** * Cost and memory-traffic estimators of devito/symbolics/inspection.py

    A shallow embedding of [count], [estimate_cost] and [estimate_memory],
    together with the SymPy expression trees and the Python values they
    inspect, and the properties of the estimators proved over it. *)

From Stdlib Require Import List ZArith String Ascii Bool Arith Lia.
Import ListNotations.

Local Open Scope string_scope.
Local Open Scope nat_scope.
Local Open Scope list_scope.

(** ** SymPy expression trees *)

(** The class of an applied function: SymPy's [sin] and [cos], or an
    undefined function created by name. *)
Inductive func : Type :=
| sin
| cos
| UndefinedFunction (name : string).

(** The kind of an n-ary operator. *)
Inductive op_kind : Type :=
| Add
| Mul
| Pow.

(** Expression nodes.  [Symbol] carries the role tag queried by
    [q_timedimension]; [Indexed] is an access [base[indices]] and
    [IndexedBase] the array identity that [Indexed.base] returns. *)
#[warnings="-register-all"]
Inductive expr : Type :=
| Symbol (name : string) (is_Time : bool)
| Integer (value : Z)
| IndexedBase (label : string)
| Indexed (base_label : string) (indices : list expr)
| Operation (kind : op_kind) (operands : list expr)
| Function (cls : func) (arguments : list expr).

Definition func_eq_dec (f g : func) : {f = g} + {f <> g}.
Proof. decide equality; apply string_dec. Defined.

Definition op_kind_eq_dec (k l : op_kind) : {k = l} + {k <> l}.
Proof. decide equality. Defined.

(** Structural (value-based) equality of nodes, as SymPy's [__eq__] and
    [__hash__] provide it for set and Counter membership. *)
Fixpoint expr_eqb (a b : expr) {struct a} : bool :=
  let fix list_eqb (l m : list expr) {struct l} : bool :=
    match l, m with
    | [], [] => true
    | x :: l', y :: m' => expr_eqb x y && list_eqb l' m'
    | _, _ => false
    end in
  match a, b with
  | Symbol n t, Symbol n' t' => String.eqb n n' && Bool.eqb t t'
  | Integer z, Integer z' => Z.eqb z z'
  | IndexedBase l, IndexedBase l' => String.eqb l l'
  | Indexed s idx, Indexed s' idx' => String.eqb s s' && list_eqb idx idx'
  | Operation k xs, Operation k' xs' =>
      (if op_kind_eq_dec k k' then true else false) && list_eqb xs xs'
  | Function f xs, Function f' xs' =>
      (if func_eq_dec f f' then true else false) && list_eqb xs xs'
  | _, _ => false
  end.

(** ** Node attributes used by the estimators *)

(** [expr.args]: the ordered children of a node.  An [Indexed] has its
    base followed by its indices; an [IndexedBase] has its label, a plain
    symbol. *)
Definition args (e : expr) : list expr :=
  match e with
  | IndexedBase l => [Symbol l false]
  | Indexed b idx => IndexedBase b :: idx
  | Operation _ xs => xs
  | Function _ xs => xs
  | _ => []
  end.

Definition is_Function (e : expr) : bool :=
  match e with Function _ _ => true | _ => false end.

Definition is_Integer (e : expr) : bool :=
  match e with Integer _ => true | _ => false end.

Definition is_Indexed (e : expr) : bool :=
  match e with Indexed _ _ => true | _ => false end.

Definition is_Operation (e : expr) : bool :=
  match e with Operation _ _ => true | _ => false end.

(** Number of nodes of a tree. *)
Fixpoint size (e : expr) : nat :=
  let fix sizes (l : list expr) : nat :=
    match l with
    | [] => 0
    | x :: r => size x + sizes r
    end in
  match e with
  | IndexedBase _ => 2
  | Indexed _ idx => 3 + sizes idx
  | Operation _ xs => 1 + sizes xs
  | Function _ xs => 1 + sizes xs
  | _ => 1
  end.

Definition sizes (l : list expr) : nat := fold_right (fun x n => size x + n) 0 l.

(** [occurrences k e]: the number of positions of [e] at which the subtree
    is [k]. *)
Fixpoint occurrences (k e : expr) : nat :=
  let fix occs (l : list expr) : nat :=
    match l with
    | [] => 0
    | x :: r => occurrences k x + occs r
    end in
  (if expr_eqb e k then 1 else 0) +
  match e with
  | IndexedBase l => if expr_eqb (Symbol l false) k then 1 else 0
  | Indexed b idx =>
      (if expr_eqb (IndexedBase b) k then 1 else 0) +
      (if expr_eqb (Symbol b false) k then 1 else 0) + occs idx
  | Operation _ xs => occs xs
  | Function _ xs => occs xs
  | _ => 0
  end.

Definition total_occurrences (k : expr) (l : list expr) : nat :=
  fold_right (fun x n => occurrences k x + n) 0 l.

(** ** The tree-search collaborator (devito.symbolics.search) *)

Inductive search_mode : Type := first | all.
Inductive visit_order : Type := bfs | dfs.

(** Breadth-first visit with an explicit queue: the head of the queue is
    visited and its children are appended at the back.  [fuel] bounds the
    number of visited nodes. *)
Fixpoint bfs_visit (fuel : nat) (queue : list expr) : list expr :=
  match fuel with
  | O => []
  | S fuel' =>
      match queue with
      | [] => []
      | e :: rest => e :: bfs_visit fuel' (rest ++ args e)
      end
  end.

(** Depth-first visit: children first, left to right, then the node. *)
Fixpoint dfs_visit (e : expr) : list expr :=
  let fix visit_all (l : list expr) : list expr :=
    match l with
    | [] => []
    | x :: r => dfs_visit x ++ visit_all r
    end in
  match e with
  | IndexedBase l => [Symbol l false; e]
  | Indexed b idx => (Symbol b false :: IndexedBase b :: visit_all idx) ++ [e]
  | Operation _ xs => visit_all xs ++ [e]
  | Function _ xs => visit_all xs ++ [e]
  | _ => [e]
  end.

(** Modelled from the spec: [search] is defined in devito.symbolics.search,
    outside inspection.py.  Section 6: a generic traversal primitive
    [search(tree, predicate, mode, order)] returning the ordered sequence of
    matching nodes, with a first-match and an all-matches mode and a
    breadth-first or depth-first order; section 4.1: it visits every
    matching node, including repeated occurrences within one tree. *)
Definition search (e : expr) (query : expr -> bool) (mode : search_mode)
    (visit : visit_order) : list expr :=
  let visited :=
    match visit with
    | bfs => bfs_visit (size e) [e]
    | dfs => dfs_visit e
    end in
  match mode with
  | all => filter query visited
  | first => firstn 1 (filter query visited)
  end.

(** Modelled from the spec: the queries behind the two retrieval
    shorthands, defined in devito.symbolics.queries, outside inspection.py.
    Section 6: Operation and Function-Call nodes, terminals excluded, for
    the one; Indexed-Access nodes for the other. *)
Definition q_op (e : expr) : bool := is_Operation e || is_Function e.

Definition q_indexed (e : expr) : bool := is_Indexed e.

(** Modelled from the spec: [retrieve_ops] is defined in
    devito.symbolics.search, outside inspection.py.  Section 6:
    [retrieve_operations(tree)]
    returns the sequence of Operation and Function-Call nodes of the tree,
    terminals excluded; section 4.2 step 3: every such node within the tree,
    via the tree search utility. *)
Definition retrieve_ops (e : expr) : list expr := search e q_op all dfs.

(** Modelled from the spec: [retrieve_indexed] is defined in
    devito.symbolics.search, outside inspection.py.  Section 6:
    [retrieve_indexed_accesses(tree)] returns the sequence of
    Indexed-Access nodes; section 4.3 step 1: all Indexed-Access nodes
    appearing in the tree. *)
Definition retrieve_indexed (e : expr) : list expr := search e q_indexed all dfs.

(** Modelled from the spec: [q_timedimension] is defined in
    devito.symbolics.queries, outside inspection.py.  Section 6: a predicate
    [is_time_dimension(node)] testing the role tag of a Terminal-Symbol. *)
Definition q_timedimension (e : expr) : bool :=
  match e with
  | Symbol _ is_Time => is_Time
  | _ => false
  end.

(** Modelled from the spec: [flatten] is defined in devito.tools, outside
    inspection.py.  Section 4.2 step 1: a sequence of collections is
    unwrapped by concatenating all their elements. *)
Definition flatten {A : Type} (l : list (list A)) : list A := List.concat l.

(** ** Python sets of nodes *)

Definition mem (x : expr) (l : list expr) : bool := existsb (expr_eqb x) l.

(** [set(l)]: the distinct elements of [l]. *)
Fixpoint set_of (l : list expr) : list expr :=
  match l with
  | [] => []
  | x :: rest => if mem x rest then set_of rest else x :: set_of rest
  end.

(** [a | b] *)
Definition set_union (a b : list expr) : list expr := set_of (a ++ b).

Definition len {A : Type} (l : list A) : nat := List.length l.

(** ** collections.Counter and [count] *)

(** A Counter (and the dict made from it) as an insertion-ordered
    association list from nodes to counts. *)
Definition Counter : Type := list (expr * nat).

Fixpoint Counter_get (c : Counter) (k : expr) : option nat :=
  match c with
  | [] => None
  | (k', v) :: rest => if expr_eqb k k' then Some v else Counter_get rest k
  end.

(** [c[k] = n + c.get(k, 0)] *)
Fixpoint Counter_add (k : expr) (n : nat) (c : Counter) : Counter :=
  match c with
  | [] => [(k, n)]
  | (k', v) :: rest =>
      if expr_eqb k k' then (k', n + v) :: rest
      else (k', v) :: Counter_add k n rest
  end.

(** [Counter(iterable)]: every element is counted once per occurrence. *)
Definition Counter_of (l : list expr) : Counter :=
  fold_left (fun c e => Counter_add e 1 c) l [].

(** [c.update(other)]: the counts of [other] are added to those of [c]. *)
Definition Counter_update (c other : Counter) : Counter :=
  fold_left (fun acc kv => Counter_add (fst kv) (snd kv) acc) other c.

(** inspection.py, lines 10-18. *)
Definition count (exprs : list expr) (query : expr -> bool) : Counter :=
  fold_left
    (fun mapper expr => Counter_update mapper (Counter_of (search expr query all bfs)))
    exprs [].

(** ** Python values, exceptions and results *)

Inductive exn : Type :=
| TypeError
| AttributeError
| AssertionError
| IndexException.

(** The outcome of evaluating Python code: a value, or a raised exception. *)
Inductive result (A : Type) : Type :=
| Return (a : A)
| Raise (e : exn).

Arguments Return {A} a.
Arguments Raise {A} e.

Definition bind {A B : Type} (c : result A) (k : A -> result B) : result B :=
  match c with
  | Return a => k a
  | Raise e => Raise e
  end.

Notation "x <- c ;; k" := (bind c (fun x => k))
  (at level 61, c at next level, right associativity).

(** A list comprehension whose element expression may raise: elements are
    evaluated left to right and the first exception ends the evaluation. *)
Fixpoint comprehension {A B : Type} (f : A -> result B) (l : list A) : result (list B) :=
  match l with
  | [] => Return []
  | x :: rest => y <- f x ;; ys <- comprehension f rest ;; Return (y :: ys)
  end.

(** The Python objects a caller can hand to the estimators: a SymPy
    expression, a SymPy equality, a list, a dict with string keys, and
    plain integers and strings, which are not SymPy objects.  [Expr] holds
    an expression proper; an array base handed over on its own is a
    [BareBase], a bare [IndexedBase(label, shape=(rows, columns))]:
    a SymPy object that has [__getitem__], so that [iter] accepts it, and
    whose subscript with a single index raises SymPy's [IndexException]
    because its shape has rank two. *)
#[warnings="-register-all"]
Inductive object : Type :=
| Expr (e : expr)
| Eq (lhs rhs : expr)
| PyInt (z : Z)
| PyStr (s : string)
| PyList (items : list object)
| PyDict (items : list (string * object))
| BareBase (label : string) (rows columns : Z).

(** [iter(o)]: the elements iteration yields, or [TypeError] when [o] is
    not iterable.  A dict iterates over its keys, a string over its
    characters.  Iterating a [BareBase] subscripts it with 0, which raises
    [IndexException] before any element is yielded. *)
Definition iter (o : object) : result (list object) :=
  match o with
  | PyList items => Return items
  | PyDict items => Return (map (fun kv => PyStr (fst kv)) items)
  | PyStr s => Return (map (fun c => PyStr (String c EmptyString)) (list_ascii_of_string s))
  | Expr _ | Eq _ _ | PyInt _ => Raise TypeError
  | BareBase _ _ _ => Raise IndexException
  end.

(** [iter(o)] as the probe of lines 31 and 93: it only asks for an
    iterator and takes no element from it, so it succeeds on a [BareBase]. *)
Definition iterable (o : object) : result unit :=
  match o with
  | BareBase _ _ _ => Return tt
  | _ => _ <- iter o ;; Return tt
  end.

(** [o.values()]: only a dict has the method. *)
Definition values (o : object) : result (list object) :=
  match o with
  | PyDict items => Return (map snd items)
  | _ => Raise AttributeError
  end.

(** [e.rhs] and [e.lhs]: only an equality has the attributes. *)
Definition rhs (o : object) : result expr :=
  match o with
  | Eq _ r => Return r
  | _ => Raise AttributeError
  end.

Definition lhs (o : object) : result expr :=
  match o with
  | Eq l _ => Return l
  | _ => Raise AttributeError
  end.

(** ** [estimate_cost] (inspection.py, lines 21-61) *)

(** Line 28. *)
Definition external_functions : list (func * Z) := [(sin, 50%Z); (cos, 50%Z)].

(** [d.get(key, default)] *)
Fixpoint get (d : list (func * Z)) (key : func) (default : Z) : Z :=
  match d with
  | [] => default
  | (k, v) :: rest => if func_eq_dec key k then v else get rest key default
  end.

(** Lines 29-33: a handle that is not iterable is wrapped in a list. *)
Definition wrap_plain (handle : object) : result object :=
  match iterable handle with
  | Return _ => Return handle
  | Raise TypeError => Return (PyList [handle])
  | Raise e => Raise e
  end.

(** Lines 34-42: a dict is replaced by its values, a list of dicts by the
    concatenation of their values, and anything else is left as it is. *)
Definition unwrap_values (handle : object) : result object :=
  match values handle with
  | Return vs => Return (PyList vs)
  | Raise AttributeError =>
      match (items <- iter handle ;;
             vss <- comprehension values items ;;
             Return (PyList (flatten vss))) with
      | Return handle' => Return handle'
      | Raise AttributeError => Return handle
      | Raise e => Raise e
      end
  | Raise e => Raise e
  end.

(** Line 48, one element: [i.rhs if i.is_Equality else i].  An object that
    is not a SymPy object has no attribute [is_Equality]. *)
Definition rhs_if_Equality (i : object) : result expr :=
  match i with
  | Eq _ r => Return r
  | Expr e => Return e
  | BareBase label _ _ => Return (IndexedBase label)
  | PyInt _ | PyStr _ | PyList _ | PyDict _ => Raise AttributeError
  end.

(** Lines 52-58: what one retrieved operation adds to [flops]. *)
Definition flops_of (estimate_functions : bool) (op : expr) : Z :=
  match op with
  | Function cls _ =>
      if estimate_functions then get external_functions cls 1%Z else 1%Z
  | _ =>
      (Z.of_nat (len (args op))
       - (1 + Z.of_nat (len (filter is_Integer (args op)))))%Z
  end.

(** Lines 50-51: the loop over the retrieved operations. *)
Definition sum_flops (estimate_functions : bool) (operations : list expr) : Z :=
  fold_left (fun flops op => (flops + flops_of estimate_functions op)%Z) operations 0%Z.

(** Lines 48-49: the retrieved operations of the normalized handle. *)
Definition operations_of (handle : object) : result (list expr) :=
  items <- iter handle ;;
  exprs <- comprehension rhs_if_Equality items ;;
  Return (flatten (map retrieve_ops exprs)).

(** Lines 29-49 together, with no handler around lines 43-59. *)
Definition retrieve_operations (handle : object) : result (list expr) :=
  handle1 <- wrap_plain handle ;;
  handle2 <- unwrap_values handle1 ;;
  operations_of handle2.

(** The text handed to the logger at line 61; [str(handle)] is kept as the
    object it prints. *)
Inductive message : Type :=
| Cannot_estimate_cost_of (handle : object).

Inductive log_record : Type :=
| warning (msg : message).

(** [estimate_cost] returns an integer, or [None] after a warning; the
    second component lists what was logged. *)
Definition estimate_cost (handle : object) (estimate_functions : bool) :
    result (option Z) * list log_record :=
  match wrap_plain handle with
  | Raise e => (Raise e, [])
  | Return handle1 =>
      match unwrap_values handle1 with
      | Raise e => (Raise e, [])
      | Return handle2 =>
          match operations_of handle2 with
          | Return operations =>
              (Return (Some (sum_flops estimate_functions operations)), [])
          | Raise _ =>
              (Return None, [warning (Cannot_estimate_cost_of handle2)])
          end
      end
  end.

(** ** [estimate_memory] (inspection.py, lines 64-108) *)

(** SymPy's [preorder_traversal]: a node, then its children left to right. *)
Fixpoint preorder_traversal (e : expr) : list expr :=
  let fix traverse_all (l : list expr) : list expr :=
    match l with
    | [] => []
    | x :: r => preorder_traversal x ++ traverse_all r
    end in
  e :: match e with
       | IndexedBase l => [Symbol l false]
       | Indexed b idx => IndexedBase b :: Symbol b false :: traverse_all idx
       | Operation _ xs => traverse_all xs
       | Function _ xs => traverse_all xs
       | _ => []
       end.

Definition is_Atom (e : expr) : bool :=
  match e with
  | Symbol _ _ | Integer _ => true
  | _ => false
  end.

(** [e.atoms(type)]: the set of nodes of [e] that are instances of the
    type; [e.atoms()] is [atoms e is_Atom]. *)
Definition atoms (e : expr) (is_type : expr -> bool) : list expr :=
  set_of (filter is_type (preorder_traversal e)).

(** Truth value of a SymPy object: only the integer zero is false. *)
Definition truthy (e : expr) : bool :=
  match e with
  | Integer 0 => false
  | _ => true
  end.

(** Truth value of a set: false only when empty. *)
Definition nonempty (l : list expr) : bool :=
  match l with
  | [] => false
  | _ :: _ => true
  end.

(** The access is irregular: some index holds an [Indexed] (line 86). *)
Definition irregular (indices : list expr) : bool :=
  existsb (fun i => nonempty (atoms i is_Indexed)) indices.

(** Lines 83-89. *)
Definition access (symbol : expr) : result expr :=
  match symbol with
  | Indexed b indices =>
      if irregular indices then Return symbol else Return (IndexedBase b)
  | _ => Raise AssertionError
  end.

Definition modes : list string := ["ideal"; "ideal_with_stores"; "realistic"].

Definition mode_in (mode : string) (l : list string) : bool :=
  existsb (String.eqb mode) l.

(** Lines 97-100: the filter selected by the mode. *)
Definition mode_filter (mode : string) : expr -> bool :=
  if mode_in mode ["ideal"; "ideal_with_stores"]
  then fun s => existsb q_timedimension (atoms s is_Atom)
  else fun s => truthy s.

(** Lines 101-108, on the elements of the handle. *)
Definition traffic (mode : string) (equations : list object) : result nat :=
  rs <- comprehension (fun e => r <- rhs e ;; Return (retrieve_indexed r)) equations ;;
  let reads := set_of (flatten rs) in
  ws <- comprehension (fun e => l <- lhs e ;; Return (retrieve_indexed l)) equations ;;
  let writes := set_of (flatten ws) in
  rkeys <- comprehension access (filter (mode_filter mode) reads) ;;
  let reads := set_of rkeys in
  wkeys <- comprehension access (filter (mode_filter mode) writes) ;;
  let writes := set_of wkeys in
  if String.eqb mode "ideal"
  then Return (len (set_union (set_of reads) (set_of writes)))
  else Return (len reads + len writes).

Definition estimate_memory (handle : object) (mode : string) : result nat :=
  if negb (mode_in mode modes) then Raise AssertionError
  else
    handle1 <- wrap_plain handle ;;
    equations <- iter handle1 ;;
    traffic mode equations.

(** ** Vocabulary of the statements *)

(** Induction over [expr] with the hypothesis available on every element
    of the nested lists. *)
Section expr_induction.
Variable P : expr -> Prop.
Hypothesis HSymbol : forall n b, P (Symbol n b).
Hypothesis HInteger : forall z, P (Integer z).
Hypothesis HBase : forall l, P (IndexedBase l).
Hypothesis HIndexed : forall b idx, Forall P idx -> P (Indexed b idx).
Hypothesis HOperation : forall k a, Forall P a -> P (Operation k a).
Hypothesis HFunction : forall f a, Forall P a -> P (Function f a).

Fixpoint expr_nested_ind (e : expr) : P e :=
  let fix go (l : list expr) : Forall P l :=
    match l with
    | [] => Forall_nil P
    | x :: r => Forall_cons x (expr_nested_ind x) (go r)
    end in
  match e with
  | Symbol n b => HSymbol n b
  | Integer z => HInteger z
  | IndexedBase l => HBase l
  | Indexed b idx => HIndexed b idx (go idx)
  | Operation k a => HOperation k a (go a)
  | Function f a => HFunction f a (go a)
  end.
End expr_induction.

(** Equality of lists of nodes, element by element. *)
Fixpoint exprs_eqb (l m : list expr) {struct l} : bool :=
  match l, m with
  | [], [] => true
  | x :: l', y :: m' => expr_eqb x y && exprs_eqb l' m'
  | _, _ => false
  end.

Definition Counter_value (c : Counter) (k : expr) : nat :=
  match Counter_get c k with
  | Some v => v
  | None => 0
  end.

Definition keys (c : Counter) : list expr := map fst c.

(** Every stored count is positive. *)
Definition positive (c : Counter) : Prop := Forall (fun kv => 0 < snd kv) c.

(** The loop of [count] started from an arbitrary mapper. *)
Definition count_from (mapper : Counter) (exprs : list expr) (query : expr -> bool) :
    Counter :=
  fold_left
    (fun mapper expr => Counter_update mapper (Counter_of (search expr query all bfs)))
    exprs mapper.

(** The key [access] returns for an indexed access. *)
Definition key (s : expr) : expr :=
  match s with
  | Indexed b indices => if irregular indices then s else IndexedBase b
  | _ => s
  end.

Definition equation (e : expr * expr) : object := Eq (fst e) (snd e).

(** The indexed accesses read and written by a list of equations. *)
Definition reads_of (equations : list (expr * expr)) : list expr :=
  set_of (flatten (map (fun e => retrieve_indexed (snd e)) equations)).

Definition writes_of (equations : list (expr * expr)) : list expr :=
  set_of (flatten (map (fun e => retrieve_indexed (fst e)) equations)).

Definition all_Indexed (l : list expr) : Prop := Forall (fun s => is_Indexed s = true) l.

(** The cost of a list of expressions: the total over the operations
    retrieved from them. *)
Definition costs (estimate_functions : bool) (exprs : list expr) : Z :=
  sum_flops estimate_functions (flatten (map retrieve_ops exprs)).


(** The object is a SymPy object: an expression, an equality or a bare
    base. *)
Definition sympy_object (o : object) : bool :=
  match o with
  | Expr _ | Eq _ _ | BareBase _ _ _ => true
  | _ => false
  end.

Definition is_dict (o : object) : bool :=
  match o with
  | PyDict _ => true
  | _ => false
  end.


(** The node is a call of a function that is a key of
    [external_functions]. *)
Definition known_function (op : expr) : bool :=
  match op with
  | Function cls _ =>
      existsb (fun kv => if func_eq_dec cls (fst kv) then true else false)
              external_functions
  | _ => false
  end.

(** The sum of the counts a Counter stores. *)
Definition Counter_total (c : Counter) : nat :=
  fold_right (fun kv n => snd kv + n) 0 c.

(** The number of matches the search returns over a list of trees. *)
Definition matches (exprs : list expr) (query : expr -> bool) : nat :=
  fold_right (fun e n => len (search e query all bfs) + n) 0 exprs.

(** The access has the time dimension among its atoms (line 98). *)
Definition time_dependent (s : expr) : bool :=
  existsb q_timedimension (atoms s is_Atom).

(** The keys read and written that the idealized modes keep. *)
Definition ideal_read_keys (equations : list (expr * expr)) : list expr :=
  set_of (map key (filter time_dependent (reads_of equations))).

Definition ideal_write_keys (equations : list (expr * expr)) : list expr :=
  set_of (map key (filter time_dependent (writes_of equations))).

(** The array an access belongs to: its base. *)
Definition array_of (s : expr) : expr :=
  match s with
  | Indexed b _ => IndexedBase b
  | _ => s
  end.

(** The access has an [Indexed] nested in one of its indices. *)
Definition irregular_access (s : expr) : bool :=
  match s with
  | Indexed _ indices => irregular indices
  | _ => false
  end.

(** Two lists hold the same elements. *)
Definition same_elements {A : Type} (l m : list A) : Prop :=
  forall x, In x l <-> In x m.

(** The gather [w[i] = A[B[i]] + A[i]], with no time dimension. *)
Module Gather.

Definition i : expr := Symbol "i" false.

(** [A[B[i]]], irregular. *)
Definition A_B_i : expr := Indexed "A" [Indexed "B" [i]].

(** [A[i]], regular. *)
Definition A_i : expr := Indexed "A" [i].

Definition w_i : expr := Indexed "w" [i].

Definition equations : list (expr * expr) := [(w_i, Operation Add [A_B_i; A_i])].

End Gather.

(** The stencil [u[t+1,x] = u[t,x] + u[t,x-1]] and the read [v[x]]. *)
Module Stencil.

Definition t : expr := Symbol "t" true.
Definition x : expr := Symbol "x" false.

(** [u[t+1, x]] *)
Definition target : expr := Indexed "u" [Operation Add [t; Integer 1]; x].

(** [u[t, x] + u[t, x-1]] *)
Definition update : expr :=
  Operation Add [Indexed "u" [t; x]; Indexed "u" [t; Operation Add [x; Integer (-1)]]].

(** [v[x]], an access without the time dimension. *)
Definition v_x : expr := Indexed "v" [x].

(** [u[t, x] + u[t, x-1] + v[x]] *)
Definition update_with_v : expr :=
  Operation Add
    [Indexed "u" [t; x]; Indexed "u" [t; Operation Add [x; Integer (-1)]]; v_x].

End Stencil.

(** * Properties *)

(** ** Equality of nodes *)

Lemma exprs_eqb_spec (l : list expr) :
  Forall (fun x => forall y, expr_eqb x y = true <-> x = y) l ->
  forall m, exprs_eqb l m = true <-> l = m.
Proof.
  induction 1 as [|x l Hx _ IH]; intros [|y m]; simpl;
    try (split; [discriminate | discriminate]); try tauto.
  rewrite andb_true_iff, Hx, IH. split.
  - intros [-> ->]; reflexivity.
  - intros E; injection E; auto.
Qed.

Lemma expr_eqb_eq (a b : expr) : expr_eqb a b = true <-> a = b.
Proof.
  revert b. induction a as [n t|z|l|s idx IH|k xs IH|f xs IH] using expr_nested_ind;
    intros [n' t'|z'|l'|s' idx'|k' xs'|f' xs']; simpl;
    try (split; [discriminate | discriminate]).
  - rewrite andb_true_iff, String.eqb_eq, Bool.eqb_true_iff.
    split; [intros [-> ->]; reflexivity | intros E; injection E; auto].
  - rewrite Z.eqb_eq. split; [intros ->; reflexivity | intros E; injection E; auto].
  - rewrite String.eqb_eq. split; [intros ->; reflexivity | intros E; injection E; auto].
  - change ((s =? s')%string && exprs_eqb idx idx' = true <-> Indexed s idx = Indexed s' idx').
    rewrite andb_true_iff, String.eqb_eq, (exprs_eqb_spec idx IH).
    split; [intros [-> ->]; reflexivity | intros E; injection E; auto].
  - change ((if op_kind_eq_dec k k' then true else false) && exprs_eqb xs xs' = true
            <-> Operation k xs = Operation k' xs').
    rewrite andb_true_iff, (exprs_eqb_spec xs IH).
    destruct (op_kind_eq_dec k k') as [->|N].
    + split; [intros [_ ->]; reflexivity | intros E; injection E; auto].
    + split; [intros [D _]; discriminate | intros E; injection E; intros; contradiction].
  - change ((if func_eq_dec f f' then true else false) && exprs_eqb xs xs' = true
            <-> Function f xs = Function f' xs').
    rewrite andb_true_iff, (exprs_eqb_spec xs IH).
    destruct (func_eq_dec f f') as [->|N].
    + split; [intros [_ ->]; reflexivity | intros E; injection E; auto].
    + split; [intros [D _]; discriminate | intros E; injection E; intros; contradiction].
Qed.

Definition expr_eq_dec (a b : expr) : {a = b} + {a <> b}.
Proof.
  destruct (expr_eqb a b) eqn:E.
  - left. apply expr_eqb_eq. exact E.
  - right. intros H. apply expr_eqb_eq in H. congruence.
Defined.

Lemma expr_eqb_refl (a : expr) : expr_eqb a a = true.
Proof. apply expr_eqb_eq. reflexivity. Qed.

Lemma expr_eqb_neq (a b : expr) : expr_eqb a b = false <-> a <> b.
Proof.
  split.
  - intros E H. apply expr_eqb_eq in H. congruence.
  - intros N. destruct (expr_eqb a b) eqn:E; [|reflexivity].
    apply expr_eqb_eq in E. contradiction.
Qed.

Lemma expr_eqb_spec (a b : expr) : reflect (a = b) (expr_eqb a b).
Proof. apply iff_reflect. symmetry. apply expr_eqb_eq. Qed.

Lemma expr_eqb_sym (a b : expr) : expr_eqb a b = expr_eqb b a.
Proof.
  destruct (expr_eqb_spec a b) as [->|N]; [symmetry; apply expr_eqb_refl|].
  symmetry. apply expr_eqb_neq. congruence.
Qed.

(** ** Sizes and occurrences *)

Lemma size_args (e : expr) : size e = 1 + sizes (args e).
Proof. destruct e; reflexivity. Qed.

Lemma sizes_app (l m : list expr) : sizes (l ++ m) = sizes l + sizes m.
Proof. induction l as [|x l IH]; simpl; [reflexivity | rewrite IH; lia]. Qed.

Lemma occurrences_args (k e : expr) :
  occurrences k e = (if expr_eqb e k then 1 else 0) + total_occurrences k (args e).
Proof.
  destruct e as [n t|z|l|s idx|k' xs|f xs]; try reflexivity;
    unfold total_occurrences; simpl; rewrite ?Nat.add_0_r; reflexivity.
Qed.

Lemma total_occurrences_app (k : expr) (l m : list expr) :
  total_occurrences k (l ++ m) = total_occurrences k l + total_occurrences k m.
Proof. induction l as [|x l IH]; simpl; [reflexivity | rewrite IH; lia]. Qed.

(** ** Counters *)

Lemma Counter_value_add (k : expr) (n : nat) (c : Counter) (k' : expr) :
  Counter_value (Counter_add k n c) k' =
  (if expr_eqb k' k then n else 0) + Counter_value c k'.
Proof.
  unfold Counter_value. induction c as [|[k0 v] rest IH]; simpl.
  - destruct (expr_eqb k' k); lia.
  - destruct (expr_eqb_spec k k0) as [->|N]; simpl.
    + destruct (expr_eqb k' k0); reflexivity.
    + destruct (expr_eqb_spec k' k0) as [->|N'].
      * destruct (expr_eqb_spec k0 k); [congruence | reflexivity].
      * exact IH.
Qed.

Lemma keys_add (k : expr) (n : nat) (c : Counter) (k' : expr) :
  In k' (keys (Counter_add k n c)) <-> k' = k \/ In k' (keys c).
Proof.
  unfold keys. induction c as [|[k0 v] rest IH]; simpl.
  - intuition congruence.
  - destruct (expr_eqb_spec k k0) as [->|N]; simpl; [intuition congruence|].
    rewrite IH. intuition congruence.
Qed.

Lemma NoDup_keys_add (k : expr) (n : nat) (c : Counter) :
  NoDup (keys c) -> NoDup (keys (Counter_add k n c)).
Proof.
  induction c as [|[k0 v] rest IH]; simpl; intros H.
  - constructor; [intros [] | constructor].
  - inversion H as [|? ? Hnotin Hrest]; subst.
    destruct (expr_eqb_spec k k0) as [->|N]; simpl.
    + constructor; assumption.
    + constructor; [|apply IH; assumption].
      intros Hin. apply (keys_add k n rest k0) in Hin.
      destruct Hin as [E|Hin]; [congruence | contradiction].
Qed.

Lemma positive_add (k : expr) (n : nat) (c : Counter) :
  0 < n -> positive c -> positive (Counter_add k n c).
Proof.
  unfold positive. intros Hn. induction c as [|[k0 v] rest IH]; simpl; intros H.
  - constructor; [exact Hn | constructor].
  - inversion H as [|? ? Hv Hrest]; subst. simpl in Hv.
    destruct (expr_eqb k k0); constructor; simpl; auto; lia.
Qed.

Lemma Counter_get_positive (c : Counter) (k : expr) :
  positive c ->
  Counter_get c k =
  (if 0 <? Counter_value c k then Some (Counter_value c k) else None).
Proof.
  unfold positive, Counter_value. induction 1 as [|[k0 v] rest Hv _ IH]; simpl.
  - reflexivity.
  - destruct (expr_eqb k k0); [|exact IH].
    simpl in Hv. destruct (Nat.ltb_spec 0 v); [reflexivity | lia].
Qed.

Lemma Counter_value_absent (c : Counter) (k : expr) :
  ~ In k (keys c) -> Counter_value c k = 0.
Proof.
  unfold Counter_value, keys. induction c as [|[k0 v] rest IH]; simpl; intros H.
  - reflexivity.
  - destruct (expr_eqb_spec k k0) as [->|N]; [exfalso; apply H; left; reflexivity|].
    apply IH. intros Hin. apply H. right. exact Hin.
Qed.

Lemma Counter_of_acc (l : list expr) (c : Counter) (k : expr) :
  Counter_value (fold_left (fun c e => Counter_add e 1 c) l c) k =
  count_occ expr_eq_dec l k + Counter_value c k.
Proof.
  revert c. induction l as [|x l IH]; intros c; simpl; [reflexivity|].
  rewrite IH, Counter_value_add.
  destruct (expr_eq_dec x k) as [->|N].
  - rewrite expr_eqb_refl. lia.
  - destruct (expr_eqb_spec k x); [congruence | lia].
Qed.

Lemma Counter_of_value (l : list expr) (k : expr) :
  Counter_value (Counter_of l) k = count_occ expr_eq_dec l k.
Proof. unfold Counter_of. rewrite Counter_of_acc. unfold Counter_value. simpl. lia. Qed.

Lemma Counter_of_wf (l : list expr) (c : Counter) :
  NoDup (keys c) -> positive c ->
  NoDup (keys (fold_left (fun c e => Counter_add e 1 c) l c)) /\
  positive (fold_left (fun c e => Counter_add e 1 c) l c).
Proof.
  revert c. induction l as [|x l IH]; intros c Hn Hp; simpl; [split; assumption|].
  apply IH; [apply NoDup_keys_add | apply positive_add]; auto.
Qed.

Lemma Counter_update_value (other c : Counter) (k : expr) :
  NoDup (keys other) ->
  Counter_value (Counter_update c other) k = Counter_value c k + Counter_value other k.
Proof.
  unfold Counter_update. revert c.
  induction other as [|[k0 v] rest IH]; intros c Hn; simpl.
  - unfold Counter_value at 3. simpl. lia.
  - inversion Hn as [|? ? Hnotin Hrest]; subst.
    rewrite (IH _ Hrest), Counter_value_add.
    unfold Counter_value at 4. simpl.
    destruct (expr_eqb_spec k k0) as [->|N].
    + rewrite (Counter_value_absent rest k0 Hnotin). lia.
    + fold (Counter_value rest k). lia.
Qed.

Lemma Counter_update_wf (other c : Counter) :
  positive other -> NoDup (keys c) -> positive c ->
  NoDup (keys (Counter_update c other)) /\ positive (Counter_update c other).
Proof.
  unfold Counter_update. revert c.
  induction other as [|[k0 v] rest IH]; intros c Ho Hn Hp; simpl; [split; assumption|].
  inversion Ho as [|? ? Hv Hrest]; subst. simpl in Hv.
  apply IH; [assumption | apply NoDup_keys_add | apply positive_add]; auto.
Qed.

(** The breadth-first visit lists every node of the queued trees, each as
    often as it occurs. *)
Lemma bfs_visit_count (k : expr) (fuel : nat) (queue : list expr) :
  sizes queue <= fuel ->
  count_occ expr_eq_dec (bfs_visit fuel queue) k = total_occurrences k queue.
Proof.
  revert queue. induction fuel as [|fuel IH]; intros [|e rest] H; simpl in *; try reflexivity.
  - pose proof (size_args e). lia.
  - rewrite (size_args e) in H.
    rewrite (occurrences_args k e).
    assert (Hs : sizes (rest ++ args e) <= fuel) by (rewrite sizes_app; lia).
    specialize (IH _ Hs). rewrite total_occurrences_app in IH.
    destruct (expr_eq_dec e k) as [->|N].
    + rewrite expr_eqb_refl, IH. lia.
    + apply expr_eqb_neq in N. rewrite N, IH. lia.
Qed.

Lemma count_occ_filter (query : expr -> bool) (l : list expr) (k : expr) :
  count_occ expr_eq_dec (filter query l) k =
  if query k then count_occ expr_eq_dec l k else 0.
Proof.
  induction l as [|x l IH]; simpl; [destruct (query k); reflexivity|].
  destruct (query x) eqn:Q; simpl; destruct (expr_eq_dec x k) as [->|N];
    rewrite ?IH; try rewrite Q; try reflexivity.
Qed.

Lemma search_all_bfs_count (e : expr) (query : expr -> bool) (k : expr) :
  count_occ expr_eq_dec (search e query all bfs) k =
  if query k then occurrences k e else 0.
Proof.
  unfold search. rewrite count_occ_filter, bfs_visit_count.
  - simpl. rewrite Nat.add_0_r. reflexivity.
  - simpl. lia.
Qed.

Lemma count_acc (exprs : list expr) (query : expr -> bool) (c : Counter) (k : expr) :
  NoDup (keys c) -> positive c ->
  Counter_value (count_from c exprs query) k =
    Counter_value c k + (if query k then total_occurrences k exprs else 0)
  /\ NoDup (keys (count_from c exprs query)) /\ positive (count_from c exprs query).
Proof.
  revert c. induction exprs as [|e exprs IH]; intros c Hn Hp.
  - simpl. repeat split; auto. destruct (query k); lia.
  - change (count_from c (e :: exprs) query)
      with (count_from (Counter_update c (Counter_of (search e query all bfs))) exprs query).
    change (total_occurrences k (e :: exprs))
      with (occurrences k e + total_occurrences k exprs).
    destruct (Counter_of_wf (search e query all bfs) [] (NoDup_nil _) (Forall_nil _))
      as [Hn1 Hp1].
    fold (Counter_of (search e query all bfs)) in Hn1, Hp1.
    destruct (Counter_update_wf _ c Hp1 Hn Hp) as [Hn2 Hp2].
    destruct (IH _ Hn2 Hp2) as (Hv & Hn3 & Hp3).
    repeat split; auto.
    rewrite Hv, Counter_update_value, Counter_of_value, search_all_bfs_count by assumption.
    destruct (query k); lia.
Qed.

(** C9: [count] maps every node that satisfies the predicate and occurs in
    the supplied trees to the total number of its occurrences, summed over
    all the trees with repeated occurrences inside one tree counted; a node
    that fails the predicate or does not occur is not a key; and no key
    appears twice. *)
Theorem count_is_multiset_union (exprs : list expr) (query : expr -> bool) (k : expr) :
  Counter_get (count exprs query) k =
    (if query k && (0 <? total_occurrences k exprs)
     then Some (total_occurrences k exprs) else None)
  /\ NoDup (map fst (count exprs query)).
Proof.
  destruct (count_acc exprs query [] k (NoDup_nil _) (Forall_nil _)) as (Hv & Hn & Hp).
  change (count_from [] exprs query) with (count exprs query) in Hv, Hn, Hp.
  split; [|exact Hn].
  rewrite (Counter_get_positive _ _ Hp), Hv.
  unfold Counter_value. simpl.
  destruct (query k); simpl; reflexivity.
Qed.

(** ** The operation count *)

Lemma sum_flops_from (estimate_functions : bool) (operations : list expr) (start : Z) :
  fold_left (fun flops op => (flops + flops_of estimate_functions op)%Z) operations start
  = (start + sum_flops estimate_functions operations)%Z.
Proof.
  unfold sum_flops. revert start.
  induction operations as [|op rest IH]; intros start; simpl; [lia|].
  rewrite IH, (IH (flops_of estimate_functions op)). lia.
Qed.

Lemma sum_flops_cons (estimate_functions : bool) (op : expr) (rest : list expr) :
  sum_flops estimate_functions (op :: rest)
  = (flops_of estimate_functions op + sum_flops estimate_functions rest)%Z.
Proof. unfold sum_flops at 1. simpl. apply sum_flops_from. Qed.

Lemma sum_flops_app (estimate_functions : bool) (before after : list expr) :
  sum_flops estimate_functions (before ++ after)
  = (sum_flops estimate_functions before + sum_flops estimate_functions after)%Z.
Proof.
  induction before as [|op rest IH]; simpl; [reflexivity|].
  rewrite !sum_flops_cons, IH. lia.
Qed.

(** One node among the retrieved operations adds [flops_of] of that node
    to the total. *)
Lemma sum_flops_insert (estimate_functions : bool) (op : expr) (before after : list expr) :
  sum_flops estimate_functions (before ++ op :: after)
  = (sum_flops estimate_functions (before ++ after) + flops_of estimate_functions op)%Z.
Proof. rewrite !sum_flops_app, sum_flops_cons. lia. Qed.

Lemma filter_length_lt {A : Type} (p : A -> bool) (l : list A) :
  existsb (fun a => negb (p a)) l = true -> List.length (filter p l) < List.length l.
Proof.
  induction l as [|x l IH]; simpl; [discriminate|].
  pose proof (filter_length_le p l) as Hle.
  destruct (p x) eqn:Px; simpl.
  - intros H. apply IH in H. lia.
  - intros _. lia.
Qed.

(** ** Normalization of the handle and the failure policy *)


(** The only exception [i.values()] raises is [AttributeError]. *)
Lemma comprehension_values_raises (items : list object) (e : exn) :
  comprehension values items = Raise e -> e = AttributeError.
Proof.
  induction items as [|o rest IH]; simpl; [discriminate|].
  destruct o; simpl; try (intros H; injection H; auto).
  destruct (comprehension values rest) as [vss|e']; simpl; [discriminate|].
  intros H; injection H as <-. apply IH. reflexivity.
Qed.



(** When lines 29-49 produce the operations, [estimate_cost] returns their
    total and logs nothing. *)
Lemma estimate_cost_returns (handle : object) (estimate_functions : bool)
    (operations : list expr) :
  retrieve_operations handle = Return operations ->
  estimate_cost handle estimate_functions
  = (Return (Some (sum_flops estimate_functions operations)), []).
Proof.
  unfold retrieve_operations, estimate_cost.
  destruct (wrap_plain handle) as [handle1|e]; simpl; [|discriminate].
  destruct (unwrap_values handle1) as [handle2|e]; simpl; [|discriminate].
  intros ->. reflexivity.
Qed.





(** C3, as the code has it: when every retrieved operation is a function
    call or has an operand that is not an integer literal, the total that
    [estimate_cost] returns is not negative. *)
Theorem estimate_cost_nonnegative (handle : object) (estimate_functions : bool)
    (operations : list expr) :
  retrieve_operations handle = Return operations ->
  Forall (fun op => is_Function op = true
                    \/ existsb (fun a => negb (is_Integer a)) (args op) = true)
         operations ->
  estimate_cost handle estimate_functions
  = (Return (Some (sum_flops estimate_functions operations)), [])
  /\ (0 <= sum_flops estimate_functions operations)%Z.
Proof.
  intros Hops Hall. split; [apply estimate_cost_returns; exact Hops|].
  clear Hops. induction Hall as [|op rest Hop _ IH]; [reflexivity|].
  rewrite sum_flops_cons.
  assert (0 <= flops_of estimate_functions op)%Z; [|lia].
  destruct Hop as [Hf|Hn].
  - destruct op; try discriminate. simpl.
    destruct estimate_functions; [|lia].
    destruct (func_eq_dec cls sin); [lia|]. destruct (func_eq_dec cls cos); lia.
  - pose proof (filter_length_lt is_Integer (args op) Hn) as Hlt.
    destruct op as [n t|z|l|b idx|kind xs|cls xs];
      try (unfold flops_of, len; lia).
    simpl. destruct estimate_functions; [|lia].
    destruct (func_eq_dec cls sin); [lia|]. destruct (func_eq_dec cls cos); lia.
Qed.

Lemma estimate_cost_nonnegative_witness :
  estimate_cost (Expr (Operation Add [Symbol "a" false; Integer 1; Integer 2])) false
  = (Return (Some (sum_flops false
       [Operation Add [Symbol "a" false; Integer 1; Integer 2]])), [])
  /\ (0 <= sum_flops false [Operation Add [Symbol "a" false; Integer 1; Integer 2]])%Z.
Proof.
  apply (estimate_cost_nonnegative
           (Expr (Operation Add [Symbol "a" false; Integer 1; Integer 2])) false
           [Operation Add [Symbol "a" false; Integer 1; Integer 2]]).
  - reflexivity.
  - constructor; [right; reflexivity | constructor].
Defined.

(** C3, as stated, fails: the unevaluated sum [1 + 2] has two operands,
    both integer literals, and its cost is [2 - (1 + 2) = -1]. *)
Lemma estimate_cost_negative :
  exists flops : Z,
    estimate_cost (Expr (Operation Add [Integer 1; Integer 2])) false
    = (Return (Some flops), [])
    /\ (flops < 0)%Z.
Proof. exists (-1)%Z. split; reflexivity. Qed.

(** ** What one node costs *)

Lemma filter_flat_map (query : expr -> bool) (f : expr -> list expr) (l : list expr) :
  filter query (flat_map f l) = flatten (map (fun x => filter query (f x)) l).
Proof.
  unfold flatten. induction l as [|x l IH]; simpl; [reflexivity|].
  rewrite filter_app, IH. reflexivity.
Qed.

(** The operations retrieved from an Operation node are those of its
    operands, in order, followed by the node. *)
Lemma retrieve_ops_Operation (kind : op_kind) (operands : list expr) :
  retrieve_ops (Operation kind operands)
  = flatten (map retrieve_ops operands) ++ [Operation kind operands].
Proof.
  unfold retrieve_ops, search.
  change (dfs_visit (Operation kind operands))
    with (flat_map dfs_visit operands ++ [Operation kind operands]).
  rewrite filter_app, filter_flat_map. reflexivity.
Qed.

Lemma retrieve_ops_Function (cls : func) (arguments : list expr) :
  retrieve_ops (Function cls arguments)
  = flatten (map retrieve_ops arguments) ++ [Function cls arguments].
Proof.
  unfold retrieve_ops, search.
  change (dfs_visit (Function cls arguments))
    with (flat_map dfs_visit arguments ++ [Function cls arguments]).
  rewrite filter_app, filter_flat_map. reflexivity.
Qed.

Lemma estimate_cost_Expr (e : expr) (estimate_functions : bool) :
  estimate_cost (Expr e) estimate_functions
  = (Return (Some (sum_flops estimate_functions (retrieve_ops e))), []).
Proof.
  apply estimate_cost_returns. unfold retrieve_operations, operations_of, flatten.
  simpl. rewrite app_nil_r. reflexivity.
Qed.

Lemma sum_flops_snoc (estimate_functions : bool) (operations : list expr) (op : expr) :
  sum_flops estimate_functions (operations ++ [op])
  = (sum_flops estimate_functions operations + flops_of estimate_functions op)%Z.
Proof. rewrite sum_flops_insert, app_nil_r. reflexivity. Qed.

(** C2: in the total that [estimate_cost] returns, a retrieved Operation
    node with [k] operands of which [m] are integer literals accounts for
    [(k - 1) - m], whatever its kind and wherever it stands among the
    retrieved operations; the cost of an expression whose root is such a
    node is the cost of its operands plus [(k - 1) - m]; a binary operation
    without an integer-literal operand adds 1 to the cost of its operands,
    so a product or sum of two symbols costs 1; and [i + 1] costs 0. *)
Theorem operation_contribution (estimate_functions : bool) (kind : op_kind)
    (operands before after : list expr) :
  (forall handle : object,
      retrieve_operations handle = Return (before ++ Operation kind operands :: after) ->
      estimate_cost handle estimate_functions
      = (Return (Some (sum_flops estimate_functions (before ++ after)
                       + ((Z.of_nat (len operands) - 1)
                          - Z.of_nat (len (filter is_Integer operands))))%Z), []))
  /\ estimate_cost (Expr (Operation kind operands)) estimate_functions
     = (Return (Some (costs estimate_functions operands
                      + ((Z.of_nat (len operands) - 1)
                         - Z.of_nat (len (filter is_Integer operands))))%Z), [])
  /\ (forall a b : expr, is_Integer a = false -> is_Integer b = false ->
      estimate_cost (Expr (Operation kind [a; b])) estimate_functions
      = (Return (Some (costs estimate_functions [a; b] + 1)%Z), [])
      /\ sum_flops estimate_functions (before ++ Operation kind [a; b] :: after)
         = (sum_flops estimate_functions (before ++ after) + 1)%Z)
  /\ (forall (a b : string) (time_a time_b : bool),
      estimate_cost (Expr (Operation kind [Symbol a time_a; Symbol b time_b]))
                    estimate_functions
      = (Return (Some 1%Z), []))
  /\ (forall (i : string) (time : bool) (z : Z),
      sum_flops estimate_functions
        (before ++ Operation kind [Symbol i time; Integer z] :: after)
      = (sum_flops estimate_functions (before ++ after) + 0)%Z
      /\ estimate_cost (Expr (Operation kind [Symbol i time; Integer z])) estimate_functions
         = (Return (Some 0%Z), [])).
Proof.
  assert (Node : forall xs,
             estimate_cost (Expr (Operation kind xs)) estimate_functions
             = (Return (Some (costs estimate_functions xs
                              + ((Z.of_nat (len xs) - 1)
                                 - Z.of_nat (len (filter is_Integer xs))))%Z), [])).
  { intros xs. rewrite estimate_cost_Expr, retrieve_ops_Operation, sum_flops_snoc.
    unfold costs, flops_of, args, len. do 3 f_equal. lia. }
  split; [|split; [|split; [|split]]].
  - intros handle H. rewrite (estimate_cost_returns _ _ _ H), sum_flops_insert.
    unfold flops_of, args, len. do 3 f_equal. lia.
  - apply Node.
  - intros a b Ha Hb. split.
    + rewrite Node. simpl. rewrite Ha, Hb. reflexivity.
    + rewrite sum_flops_insert. simpl. rewrite Ha, Hb. reflexivity.
  - intros a b time_a time_b. reflexivity.
  - intros i time z. split; [rewrite sum_flops_insert|]; reflexivity.
Qed.

Lemma operation_contribution_witness :
  estimate_cost (PyList [Expr (Operation Add [Operation Mul [Symbol "a" false;
                                                             Symbol "b" false];
                                              Symbol "c" false])]) false
  = (Return (Some (sum_flops false ([] ++ [Operation Add
                                             [Operation Mul [Symbol "a" false;
                                                             Symbol "b" false];
                                              Symbol "c" false]])
                   + ((Z.of_nat 2 - 1) - Z.of_nat 0))%Z), [])
  /\ (estimate_cost (Expr (Operation Mul [Function sin [Symbol "a" false];
                                          Symbol "b" false])) true
      = (Return (Some (costs true [Function sin [Symbol "a" false]; Symbol "b" false]
                       + 1)%Z), [])
      /\ sum_flops true ([] ++ Operation Mul [Function sin [Symbol "a" false];
                                              Symbol "b" false] :: [])
         = (sum_flops true ([] ++ []) + 1)%Z).
Proof.
  split.
  - apply (proj1 (operation_contribution false Mul
                    [Symbol "a" false; Symbol "b" false] []
                    [Operation Add [Operation Mul [Symbol "a" false; Symbol "b" false];
                                    Symbol "c" false]])).
    reflexivity.
  - apply (proj1 (proj2 (proj2 (operation_contribution true Mul [] [] []))));
      reflexivity.
Defined.

(** C8: in the total that [estimate_cost] returns, a call of [sin] accounts
    for 50 when [estimate_functions] is set and for 1 when it is not, and a
    call of a function that is not a key of [external_functions] for 1
    either way, wherever the call stands among the retrieved operations;
    the cost of an expression whose root is the call is the cost of its
    arguments plus that amount, so [sin(x)] costs 50 or 1. *)
Theorem function_call_contribution (arguments before after : list expr) :
  (forall (handle : object) (estimate_functions : bool),
      retrieve_operations handle = Return (before ++ Function sin arguments :: after) ->
      estimate_cost handle estimate_functions
      = (Return (Some (sum_flops estimate_functions (before ++ after)
                       + (if estimate_functions then 50 else 1))%Z), []))
  /\ estimate_cost (Expr (Function sin arguments)) true
     = (Return (Some (costs true arguments + 50)%Z), [])
  /\ estimate_cost (Expr (Function sin arguments)) false
     = (Return (Some (costs false arguments + 1)%Z), [])
  /\ (forall (x : string) (time : bool),
      estimate_cost (Expr (Function sin [Symbol x time])) true = (Return (Some 50%Z), [])
      /\ estimate_cost (Expr (Function sin [Symbol x time])) false
         = (Return (Some 1%Z), []))
  /\ (forall (cls : func) (estimate_functions : bool),
      ~ In cls (map fst external_functions) ->
      estimate_cost (Expr (Function cls arguments)) estimate_functions
      = (Return (Some (costs estimate_functions arguments + 1)%Z), [])
      /\ (forall handle : object,
           retrieve_operations handle = Return (before ++ Function cls arguments :: after) ->
           estimate_cost handle estimate_functions
           = (Return (Some (sum_flops estimate_functions (before ++ after) + 1)%Z), []))
      /\ sum_flops estimate_functions (before ++ Function cls arguments :: after)
         = (sum_flops estimate_functions (before ++ after) + 1)%Z).
Proof.
  assert (Call : forall cls ef,
             estimate_cost (Expr (Function cls arguments)) ef
             = (Return (Some (costs ef arguments
                              + flops_of ef (Function cls arguments))%Z), [])).
  { intros cls ef. rewrite estimate_cost_Expr, retrieve_ops_Function, sum_flops_snoc.
    reflexivity. }
  assert (Unknown : forall cls ef, ~ In cls (map fst external_functions) ->
             flops_of ef (Function cls arguments) = 1%Z).
  { intros cls ef Hnot. simpl. destruct ef; [|reflexivity].
    destruct (func_eq_dec cls sin) as [->|_]; [exfalso; apply Hnot; simpl; auto|].
    destruct (func_eq_dec cls cos) as [->|_]; [exfalso; apply Hnot; simpl; auto|].
    reflexivity. }
  split; [|split; [|split; [|split]]].
  - intros handle ef H. rewrite (estimate_cost_returns _ _ _ H), sum_flops_insert.
    destruct ef; reflexivity.
  - apply Call.
  - apply Call.
  - intros x time. split; reflexivity.
  - intros cls ef Hnot. split; [|split].
    + rewrite Call, (Unknown cls ef Hnot). reflexivity.
    + intros handle H.
      rewrite (estimate_cost_returns _ _ _ H), sum_flops_insert, (Unknown cls ef Hnot).
      reflexivity.
    + rewrite sum_flops_insert, (Unknown cls ef Hnot). reflexivity.
Qed.

Lemma function_call_contribution_witness :
  estimate_cost (Eq (Symbol "y" false)
                    (Operation Mul [Function sin [Symbol "x" false]; Symbol "a" false]))
                true
  = (Return (Some (sum_flops true ([] ++ [Operation Mul [Function sin [Symbol "x" false];
                                                         Symbol "a" false]])
                   + 50)%Z), [])
  /\ estimate_cost (Expr (Function (UndefinedFunction "f") [Symbol "x" false])) true
     = (Return (Some (costs true [Symbol "x" false] + 1)%Z), []).
Proof.
  split.
  - apply (proj1 (function_call_contribution [Symbol "x" false] []
                    [Operation Mul [Function sin [Symbol "x" false]; Symbol "a" false]])
             (Eq (Symbol "y" false)
                 (Operation Mul [Function sin [Symbol "x" false]; Symbol "a" false]))
             true).
    reflexivity.
  - apply (proj1 (proj2 (proj2 (proj2 (proj2
             (function_call_contribution [Symbol "x" false] [] [])))) 
             (UndefinedFunction "f") true
             ltac:(simpl; intros [H|[H|[]]]; discriminate H))).
Defined.

(** ** Equations contribute their right-hand side only *)

Lemma comprehension_app {A B : Type} (f : A -> result B) (l m : list A) :
  comprehension f (l ++ m)
  = (xs <- comprehension f l ;; ys <- comprehension f m ;; Return (xs ++ ys)).
Proof.
  induction l as [|x l IH]; simpl.
  - destruct (comprehension f m); reflexivity.
  - destruct (f x) as [y|e]; simpl; [|reflexivity].
    rewrite IH. destruct (comprehension f l) as [xs|e]; simpl; [|reflexivity].
    destruct (comprehension f m); reflexivity.
Qed.




(** ** Sets of nodes *)

Lemma mem_In (x : expr) (l : list expr) : mem x l = true <-> In x l.
Proof.
  unfold mem. rewrite existsb_exists. split.
  - intros (y & Hy & E). apply expr_eqb_eq in E. subst y. exact Hy.
  - intros H. exists x. split; [exact H | apply expr_eqb_refl].
Qed.

Lemma set_of_In (x : expr) (l : list expr) : In x (set_of l) <-> In x l.
Proof.
  induction l as [|y l IH]; simpl; [reflexivity|].
  destruct (mem y l) eqn:M.
  - rewrite IH. apply mem_In in M. split; [auto|]. intros [<-|H]; assumption.
  - simpl. rewrite IH. reflexivity.
Qed.

Lemma set_of_NoDup (l : list expr) : NoDup (set_of l).
Proof.
  induction l as [|y l IH]; simpl; [constructor|].
  destruct (mem y l) eqn:M; [exact IH|].
  constructor; [|exact IH].
  rewrite set_of_In, <- mem_In, M. discriminate.
Qed.

Lemma set_of_length_le (l : list expr) : len (set_of l) <= len l.
Proof.
  unfold len. induction l as [|y l IH]; simpl; [lia|].
  destruct (mem y l); simpl; lia.
Qed.

Lemma set_of_incl_length (a b : list expr) :
  incl a b -> len (set_of a) <= len (set_of b).
Proof.
  intros H. apply NoDup_incl_length; [apply set_of_NoDup|].
  intros x Hx. apply set_of_In. apply H. apply set_of_In. exact Hx.
Qed.

Lemma set_union_length_le (a b : list expr) :
  len (set_union a b) <= len a + len b.
Proof.
  unfold set_union. pose proof (set_of_length_le (a ++ b)) as H.
  unfold len in *. rewrite length_app in H. exact H.
Qed.

Lemma set_of_Forall (P : expr -> Prop) (l : list expr) :
  Forall P l -> Forall P (set_of l).
Proof.
  rewrite !Forall_forall. intros H x Hx. apply H. apply set_of_In. exact Hx.
Qed.

Lemma nonempty_set_of (l : list expr) :
  nonempty (set_of l) = true <-> exists x, In x l.
Proof.
  split.
  - destruct (set_of l) as [|x r] eqn:E; [discriminate|]. intros _.
    exists x. apply set_of_In. rewrite E. left. reflexivity.
  - intros (x & Hx). apply set_of_In in Hx.
    destruct (set_of l); [destruct Hx | reflexivity].
Qed.

(** ** Contract of [estimate_memory] *)

Lemma mode_in_In (mode : string) (l : list string) : mode_in mode l = true <-> In mode l.
Proof.
  unfold mode_in. rewrite existsb_exists. split.
  - intros (y & Hy & E). apply String.eqb_eq in E. subst y. exact Hy.
  - intros H. exists mode. split; [exact H | apply String.eqb_refl].
Qed.

(** C5: with a mode that is none of the three, [estimate_memory] raises
    [AssertionError] whatever the handle is, so before anything is computed
    from the handle, and returns no number. *)
Theorem estimate_memory_invalid_mode (handle : object) (mode : string) :
  ~ In mode modes ->
  estimate_memory handle mode = Raise AssertionError
  /\ (forall n : nat, estimate_memory handle mode <> Return n).
Proof.
  intros Hnot. unfold estimate_memory.
  destruct (mode_in mode modes) eqn:M.
  - apply mode_in_In in M. contradiction.
  - simpl. split; [reflexivity | discriminate].
Qed.

Lemma estimate_memory_invalid_mode_witness :
  estimate_memory (PyInt 7) "optimistic" = Raise AssertionError
  /\ (forall n : nat, estimate_memory (PyInt 7) "optimistic" <> Return n).
Proof.
  apply (estimate_memory_invalid_mode (PyInt 7) "optimistic").
  simpl. intros [H|[H|[H|[]]]]; discriminate H.
Defined.

(** ** Access normalization *)

Lemma irregular_nested (indices : list expr) :
  irregular indices = true <->
  exists i s, In i indices /\ In s (preorder_traversal i) /\ is_Indexed s = true.
Proof.
  unfold irregular, atoms. rewrite existsb_exists. split.
  - intros (i & Hi & Hne). apply nonempty_set_of in Hne. destruct Hne as (s & Hs).
    apply filter_In in Hs. exists i, s. tauto.
  - intros (i & s & Hi & Hs & Hidx). exists i. split; [exact Hi|].
    apply nonempty_set_of. exists s. apply filter_In. tauto.
Qed.

Lemma comprehension_In {A B : Type} (f : A -> result B) (l : list A) (ys : list B)
    (x : A) (y : B) :
  comprehension f l = Return ys -> In x l -> f x = Return y -> In y ys.
Proof.
  revert ys. induction l as [|a l IH]; intros ys; simpl; [intros _ []|].
  destruct (f a) as [b|e] eqn:Fa; simpl; [|discriminate].
  destruct (comprehension f l) as [bs|e]; simpl; [|discriminate].
  intros H; injection H as <-. intros [->|Hin] Hx.
  - left. congruence.
  - right. apply (IH bs); auto.
Qed.

(** ** The three traffic modes *)

Lemma retrieve_indexed_Indexed (e : expr) : all_Indexed (retrieve_indexed e).
Proof.
  unfold all_Indexed, retrieve_indexed, search. apply Forall_forall.
  intros s Hs. apply filter_In in Hs. apply Hs.
Qed.

Lemma flatten_Forall {A : Type} (P : A -> Prop) (ls : list (list A)) :
  Forall (Forall P) ls -> Forall P (flatten ls).
Proof.
  unfold flatten. induction 1 as [|l ls Hl _ IH]; simpl; [constructor|].
  apply Forall_app. split; assumption.
Qed.

Lemma reads_of_Indexed (equations : list (expr * expr)) : all_Indexed (reads_of equations).
Proof.
  apply set_of_Forall, flatten_Forall, Forall_forall.
  intros l Hl. apply in_map_iff in Hl. destruct Hl as (e & <- & _).
  apply retrieve_indexed_Indexed.
Qed.

Lemma writes_of_Indexed (equations : list (expr * expr)) : all_Indexed (writes_of equations).
Proof.
  apply set_of_Forall, flatten_Forall, Forall_forall.
  intros l Hl. apply in_map_iff in Hl. destruct Hl as (e & <- & _).
  apply retrieve_indexed_Indexed.
Qed.

Lemma comprehension_total {A B : Type} (f : A -> result B) (g : A -> B) (l : list A) :
  Forall (fun x => f x = Return (g x)) l -> comprehension f l = Return (map g l).
Proof.
  induction 1 as [|x l Hx _ IH]; simpl; [reflexivity|].
  rewrite Hx, IH. reflexivity.
Qed.

(** On indexed accesses [access] always returns. *)
Lemma comprehension_access (l : list expr) :
  all_Indexed l -> comprehension access l = Return (map key l).
Proof.
  intros H. apply comprehension_total. revert H. apply Forall_impl.
  intros s Hs. destruct s; try discriminate Hs. simpl.
  destruct (irregular indices); reflexivity.
Qed.

Lemma filter_Forall {A : Type} (P : A -> Prop) (p : A -> bool) (l : list A) :
  Forall P l -> Forall P (filter p l).
Proof.
  rewrite !Forall_forall. intros H x Hx. apply filter_In in Hx. apply H, Hx.
Qed.

Lemma filter_truthy (l : list expr) : all_Indexed l -> filter truthy l = l.
Proof.
  induction 1 as [|s l Hs _ IH]; simpl; [reflexivity|].
  destruct s; try discriminate Hs. simpl. rewrite IH. reflexivity.
Qed.

(** Lines 101-108 on a list of equations, with every step returning. *)
Lemma traffic_equations (mode : string) (equations : list (expr * expr)) :
  traffic mode (map equation equations)
  = let reads := set_of (map key (filter (mode_filter mode) (reads_of equations))) in
    let writes := set_of (map key (filter (mode_filter mode) (writes_of equations))) in
    Return (if String.eqb mode "ideal"
            then len (set_union (set_of reads) (set_of writes))
            else len reads + len writes).
Proof.
  unfold traffic.
  rewrite (comprehension_total _ (fun o => match o with
                                           | Eq _ r => retrieve_indexed r
                                           | _ => []
                                           end) (map equation equations))
    by (apply Forall_forall; intros o Ho; apply in_map_iff in Ho;
        destruct Ho as (e & <- & _); reflexivity).
  rewrite (comprehension_total _ (fun o => match o with
                                           | Eq l _ => retrieve_indexed l
                                           | _ => []
                                           end) (map equation equations))
    by (apply Forall_forall; intros o Ho; apply in_map_iff in Ho;
        destruct Ho as (e & <- & _); reflexivity).
  simpl. rewrite !map_map. simpl.
  fold (reads_of equations). fold (writes_of equations).
  rewrite (comprehension_access (filter (mode_filter mode) (reads_of equations)))
    by (apply filter_Forall, reads_of_Indexed).
  simpl.
  rewrite (comprehension_access (filter (mode_filter mode) (writes_of equations)))
    by (apply filter_Forall, writes_of_Indexed).
  simpl. destruct (String.eqb mode "ideal"); reflexivity.
Qed.

Lemma estimate_memory_equations (mode : string) (equations : list (expr * expr)) :
  In mode modes ->
  estimate_memory (PyList (map equation equations)) mode
  = traffic mode (map equation equations).
Proof.
  intros H. apply mode_in_In in H. unfold estimate_memory. rewrite H. reflexivity.
Qed.

Lemma key_filter_length (p : expr -> bool) (l : list expr) :
  len (set_of (map key (filter p l))) <= len (set_of (map key l)).
Proof.
  apply set_of_incl_length. intros k Hk. apply in_map_iff in Hk.
  destruct Hk as (s & <- & Hs). apply filter_In in Hs. apply in_map. apply Hs.
Qed.

(** C10: on every list of equations the three modes return, and the
    results are ordered: ideal, then ideal_with_stores, then realistic. *)
Theorem traffic_modes_ordered (equations : list (expr * expr)) :
  exists ideal stores realistic : nat,
    estimate_memory (PyList (map equation equations)) "ideal" = Return ideal
    /\ estimate_memory (PyList (map equation equations)) "ideal_with_stores" = Return stores
    /\ estimate_memory (PyList (map equation equations)) "realistic" = Return realistic
    /\ ideal <= stores /\ stores <= realistic.
Proof.
  rewrite !estimate_memory_equations by (simpl; auto).
  rewrite !traffic_equations.
  do 3 eexists. split; [reflexivity|]. split; [reflexivity|]. split; [reflexivity|].
  cbv zeta.
  change (mode_filter "ideal") with (fun s => existsb q_timedimension (atoms s is_Atom)).
  change (mode_filter "ideal_with_stores")
    with (fun s => existsb q_timedimension (atoms s is_Atom)).
  change (mode_filter "realistic") with (fun s => truthy s).
  change ("ideal" =? "ideal")%string with true.
  change ("ideal_with_stores" =? "ideal")%string with false.
  change ("realistic" =? "ideal")%string with false.
  cbv iota.
  split.
  - etransitivity; [apply set_union_length_le|].
    pose proof (set_of_length_le
      (set_of (map key (filter (fun s => existsb q_timedimension (atoms s is_Atom))
                               (reads_of equations))))).
    pose proof (set_of_length_le
      (set_of (map key (filter (fun s => existsb q_timedimension (atoms s is_Atom))
                               (writes_of equations))))).
    lia.
  - pose proof (key_filter_length (fun s => existsb q_timedimension (atoms s is_Atom))
                  (reads_of equations)).
    pose proof (key_filter_length (fun s => existsb q_timedimension (atoms s is_Atom))
                  (writes_of equations)).
    rewrite !filter_truthy by (apply reads_of_Indexed || apply writes_of_Indexed).
    lia.
Qed.

(** ** Irregular accesses in the estimate *)

Lemma key_is_access (s : expr) (b : string) (indices : list expr) :
  key s = Indexed b indices -> s = Indexed b indices.
Proof.
  destruct s as [n t|z|l|b' idx|kind xs|cls xs]; simpl; try (intros H; exact H).
  destruct (irregular idx); [intros H; exact H | discriminate].
Qed.

Lemma two_keys (keys : list expr) (k1 k2 : expr) :
  NoDup keys -> In k1 keys -> In k2 keys -> k1 <> k2 -> 2 <= len keys.
Proof.
  unfold len. intros Hnd H1 H2 Hneq.
  destruct keys as [|a [|c rest]]; simpl in *; try lia.
  destruct H1 as [->|[]]. destruct H2 as [->|[]]. contradiction.
Qed.

(** C6, as the code has it: the key of an access with an [Indexed] nested
    in an index is the access itself, the key of any other access is its
    base alone.  Under each mode, when an irregular and a regular read of
    the same base both pass the filter of the mode, the estimate is the
    count over key sets in which the irregular access and the base are two
    different read keys, so it is at least 2.  Every access passes the
    filter of mode realistic; in the two ideal modes an irregular access
    without the time dimension is no read key at all. *)
Theorem access_distinctness_key (b : string) (indices : list expr) :
  ((exists i s, In i indices /\ In s (preorder_traversal i) /\ is_Indexed s = true) ->
   access (Indexed b indices) = Return (Indexed b indices))
  /\ (~ (exists i s, In i indices /\ In s (preorder_traversal i) /\ is_Indexed s = true) ->
      access (Indexed b indices) = Return (IndexedBase b))
  /\ (forall (mode : string) (equations : list (expr * expr)) (regular : list expr),
      In mode modes ->
      irregular indices = true -> irregular regular = false ->
      In (Indexed b indices) (reads_of equations) ->
      In (Indexed b regular) (reads_of equations) ->
      mode_filter mode (Indexed b indices) = true ->
      mode_filter mode (Indexed b regular) = true ->
      exists (read_keys write_keys : list expr) (n : nat),
        read_keys = set_of (map key (filter (mode_filter mode) (reads_of equations)))
        /\ write_keys = set_of (map key (filter (mode_filter mode) (writes_of equations)))
        /\ estimate_memory (PyList (map equation equations)) mode = Return n
        /\ n = (if (mode =? "ideal")%string
                then len (set_union (set_of read_keys) (set_of write_keys))
                else len read_keys + len write_keys)
        /\ In (Indexed b indices) read_keys
        /\ In (IndexedBase b) read_keys
        /\ Indexed b indices <> IndexedBase b
        /\ 2 <= n)
  /\ mode_filter "realistic" (Indexed b indices) = true
  /\ (forall (mode : string) (equations : list (expr * expr)),
      In mode ["ideal"; "ideal_with_stores"] ->
      time_dependent (Indexed b indices) = false ->
      ~ In (Indexed b indices)
           (set_of (map key (filter (mode_filter mode) (reads_of equations))))).
Proof.
  split; [|split; [|split; [|split]]].
  - intros H. apply irregular_nested in H. simpl. rewrite H. reflexivity.
  - intros H. simpl. destruct (irregular indices) eqn:E; [|reflexivity].
    exfalso. apply H. apply irregular_nested. exact E.
  - intros mode equations regular Hmode Hirr Hreg Hin1 Hin2 Hf1 Hf2.
    do 3 eexists. split; [reflexivity|]. split; [reflexivity|].
    rewrite (estimate_memory_equations mode equations Hmode), traffic_equations.
    cbv zeta. split; [reflexivity|]. split; [reflexivity|].
    assert (K1 : In (Indexed b indices)
                    (set_of (map key (filter (mode_filter mode) (reads_of equations))))).
    { apply set_of_In, in_map_iff. exists (Indexed b indices). split.
      - simpl. rewrite Hirr. reflexivity.
      - apply filter_In. split; assumption. }
    assert (K2 : In (IndexedBase b)
                    (set_of (map key (filter (mode_filter mode) (reads_of equations))))).
    { apply set_of_In, in_map_iff. exists (Indexed b regular). split.
      - simpl. rewrite Hreg. reflexivity.
      - apply filter_In. split; assumption. }
    split; [exact K1|]. split; [exact K2|]. split; [discriminate|].
    pose proof (two_keys _ _ _ (set_of_NoDup _) K1 K2 ltac:(discriminate)) as H2.
    destruct (mode =? "ideal")%string; [|lia].
    etransitivity; [exact H2|].
    apply NoDup_incl_length; [apply set_of_NoDup|].
    intros k Hk. apply set_of_In, in_or_app. left. apply set_of_In. exact Hk.
  - reflexivity.
  - intros mode equations Hmode Htime Hin.
    apply set_of_In, in_map_iff in Hin. destruct Hin as (s & Hkey & Hs).
    apply key_is_access in Hkey. subst s. apply filter_In in Hs. destruct Hs as [_ Hf].
    assert (mode_filter mode = time_dependent) as E
      by (destruct Hmode as [<-|[<-|[]]]; reflexivity).
    rewrite E, Htime in Hf. discriminate Hf.
Qed.

Lemma access_distinctness_key_witness :
  access Gather.A_B_i = Return Gather.A_B_i
  /\ access Gather.A_i = Return (IndexedBase "A")
  /\ (exists (read_keys write_keys : list expr) (n : nat),
        read_keys = set_of (map key (filter (mode_filter "realistic")
                                            (reads_of Gather.equations)))
        /\ write_keys = set_of (map key (filter (mode_filter "realistic")
                                                (writes_of Gather.equations)))
        /\ estimate_memory (PyList (map equation Gather.equations)) "realistic" = Return n
        /\ n = (if ("realistic" =? "ideal")%string
                then len (set_union (set_of read_keys) (set_of write_keys))
                else len read_keys + len write_keys)
        /\ In Gather.A_B_i read_keys
        /\ In (IndexedBase "A") read_keys
        /\ Gather.A_B_i <> IndexedBase "A"
        /\ 2 <= n)
  /\ ~ In Gather.A_B_i
         (set_of (map key (filter (mode_filter "ideal") (reads_of Gather.equations)))).
Proof.
  split; [|split; [|split]].
  - apply (proj1 (access_distinctness_key "A" [Indexed "B" [Gather.i]])).
    exists (Indexed "B" [Gather.i]), (Indexed "B" [Gather.i]).
    simpl. auto.
  - apply (proj1 (proj2 (access_distinctness_key "A" [Gather.i]))).
    intros (i & s & Hi & Hs & Hidx). simpl in Hi. destruct Hi as [<-|[]].
    simpl in Hs. destruct Hs as [<-|[]]. discriminate Hidx.
  - apply (proj1 (proj2 (proj2 (access_distinctness_key "A" [Indexed "B" [Gather.i]])))
             "realistic" Gather.equations [Gather.i]);
      try reflexivity; vm_compute; auto.
  - apply (proj2 (proj2 (proj2 (proj2
             (access_distinctness_key "A" [Indexed "B" [Gather.i]]))))
             "ideal" Gather.equations); [simpl; auto | reflexivity].
Defined.

(** C6, as stated, fails in the two ideal modes: in
    [w[i] = A[B[i]] + A[i]] the read [A[B[i]]] is irregular and stands
    beside the regular read [A[i]], but no access has the time dimension,
    so line 103 drops it before [access] is reached and it is not counted;
    mode realistic counts it. *)
Lemma irregular_access_filtered :
  irregular_access Gather.A_B_i = true
  /\ In Gather.A_B_i (reads_of Gather.equations)
  /\ In Gather.A_i (reads_of Gather.equations)
  /\ estimate_memory (PyList (map equation Gather.equations)) "ideal" = Return 0
  /\ estimate_memory (PyList (map equation Gather.equations)) "ideal_with_stores"
     = Return 0
  /\ estimate_memory (PyList (map equation Gather.equations)) "realistic" = Return 4.
Proof. vm_compute. repeat split; auto. Qed.

(** ** The stencil example *)

(** C1: for [u[t+1,x] = u[t,x] + u[t,x-1]] the estimate is 1 in mode
    ideal, 2 in mode ideal_with_stores and 2 in mode realistic; with the
    read [v[x]] added, where [v] is accessed without the time dimension,
    the first two stay 1 and 2 and the realistic estimate becomes 3. *)
Theorem estimate_memory_stencil :
  estimate_memory (PyList [Eq Stencil.target Stencil.update]) "ideal" = Return 1
  /\ estimate_memory (PyList [Eq Stencil.target Stencil.update]) "ideal_with_stores"
     = Return 2
  /\ estimate_memory (PyList [Eq Stencil.target Stencil.update]) "realistic" = Return 2
  /\ estimate_memory (PyList [Eq Stencil.target Stencil.update_with_v]) "ideal" = Return 1
  /\ estimate_memory (PyList [Eq Stencil.target Stencil.update_with_v]) "ideal_with_stores"
     = Return 2
  /\ estimate_memory (PyList [Eq Stencil.target Stencil.update_with_v]) "realistic"
     = Return (2 + 1)
  /\ existsb q_timedimension (atoms Stencil.v_x is_Atom) = false
  /\ existsb q_timedimension (atoms Stencil.target is_Atom) = true.
Proof. repeat split; vm_compute; reflexivity. Qed.

(** * Further properties *)

(** ** The weight of known functions *)

Lemma flops_of_surcharge (op : expr) :
  flops_of true op = (flops_of false op + (if known_function op then 49 else 0))%Z.
Proof.
  destruct op as [n t|z|l|b idx|kind xs|cls xs]; simpl; try lia.
  destruct (func_eq_dec cls sin); [reflexivity|].
  destruct (func_eq_dec cls cos); reflexivity.
Qed.

Lemma sum_flops_surcharge (operations : list expr) :
  sum_flops true operations
  = (sum_flops false operations
     + 49 * Z.of_nat (len (filter known_function operations)))%Z.
Proof.
  induction operations as [|op rest IH]; [reflexivity|].
  rewrite !sum_flops_cons, IH, flops_of_surcharge. simpl filter.
  destruct (known_function op); unfold len in *; simpl List.length; lia.
Qed.

(** X1: switching [estimate_functions] on raises the estimate by exactly 49
    for every retrieved call of [sin] or [cos] and changes nothing else, so
    it never lowers the estimate. *)
Theorem estimate_functions_surcharge (handle : object) (operations : list expr) :
  retrieve_operations handle = Return operations ->
  exists flops : Z,
    estimate_cost handle false = (Return (Some flops), [])
    /\ estimate_cost handle true
       = (Return (Some (flops
                        + 49 * Z.of_nat (len (filter known_function operations)))%Z), [])
    /\ (flops <= flops + 49 * Z.of_nat (len (filter known_function operations)))%Z.
Proof.
  intros H. exists (sum_flops false operations).
  rewrite !(estimate_cost_returns _ _ _ H), sum_flops_surcharge.
  repeat split. lia.
Qed.

Lemma estimate_functions_surcharge_witness :
  exists flops : Z,
    estimate_cost (Expr (Operation Mul [Function sin [Stencil.x];
                                        Function cos [Stencil.x]])) false
    = (Return (Some flops), [])
    /\ estimate_cost (Expr (Operation Mul [Function sin [Stencil.x];
                                           Function cos [Stencil.x]])) true
       = (Return (Some (flops + 49 * 2)%Z), [])
    /\ (flops <= flops + 49 * 2)%Z.
Proof.
  apply (estimate_functions_surcharge
           (Expr (Operation Mul [Function sin [Stencil.x]; Function cos [Stencil.x]]))
           [Function sin [Stencil.x]; Function cos [Stencil.x];
            Operation Mul [Function sin [Stencil.x]; Function cos [Stencil.x]]]).
  reflexivity.
Defined.

(** ** Shapes of the handle *)

Lemma comprehension_raises {A B : Type} (f : A -> result B) (l : list A) (x : A)
    (e0 : exn) :
  In x l -> f x = Raise e0 -> exists e, comprehension f l = Raise e.
Proof.
  induction l as [|a l IH]; simpl; [intros []|].
  intros [->|Hin] Hx.
  - rewrite Hx. simpl. eauto.
  - destruct (f a) as [b|e]; simpl; [|eauto].
    destruct (IH Hin Hx) as (e & ->). simpl. eauto.
Qed.

(** A list of SymPy objects is left as it is by lines 34-42. *)
Lemma unwrap_values_sympy (items : list object) :
  forallb sympy_object items = true ->
  unwrap_values (PyList items) = Return (PyList items).
Proof.
  intros H. unfold unwrap_values. simpl.
  destruct items as [|i rest]; [reflexivity|].
  simpl in H. apply andb_true_iff in H. destruct H as [Hi _].
  destruct i; try discriminate Hi; reflexivity.
Qed.

(** Line 48 succeeds on a list of SymPy objects. *)
Lemma comprehension_rhs_sympy (items : list object) :
  forallb sympy_object items = true ->
  exists exprs, comprehension rhs_if_Equality items = Return exprs.
Proof.
  induction items as [|i rest IH]; simpl; [eauto|].
  intros H. apply andb_true_iff in H. destruct H as [Hi Hrest].
  destruct (IH Hrest) as (exprs & ->).
  destruct i; try discriminate Hi; simpl; eauto.
Qed.

Lemma estimate_cost_sympy_list (items : list object) (estimate_functions : bool)
    (exprs : list expr) :
  forallb sympy_object items = true ->
  comprehension rhs_if_Equality items = Return exprs ->
  estimate_cost (PyList items) estimate_functions
  = (Return (Some (sum_flops estimate_functions (flatten (map retrieve_ops exprs)))), []).
Proof.
  intros Hs He. apply estimate_cost_returns.
  unfold retrieve_operations. simpl. rewrite (unwrap_values_sympy _ Hs). simpl.
  unfold operations_of. simpl. rewrite He. reflexivity.
Qed.

(** X2: the cost of a dict of SymPy objects is the cost of the list of its
    values; the keys play no part. *)
Theorem estimate_cost_dict_values (items : list (string * object))
    (estimate_functions : bool) :
  forallb sympy_object (map snd items) = true ->
  estimate_cost (PyDict items) estimate_functions
  = estimate_cost (PyList (map snd items)) estimate_functions.
Proof.
  intros H. unfold estimate_cost.
  change (wrap_plain (PyDict items)) with (@Return object (PyDict items)).
  change (wrap_plain (PyList (map snd items)))
    with (@Return object (PyList (map snd items))).
  change (unwrap_values (PyDict items)) with (@Return object (PyList (map snd items))).
  cbv iota. rewrite (unwrap_values_sympy _ H). reflexivity.
Qed.

Lemma estimate_cost_dict_values_witness :
  estimate_cost (PyDict [("a", Expr Stencil.update);
                         ("b", Eq Stencil.target Stencil.update_with_v)]) false
  = estimate_cost (PyList [Expr Stencil.update;
                           Eq Stencil.target Stencil.update_with_v]) false.
Proof.
  apply (estimate_cost_dict_values
           [("a", Expr Stencil.update); ("b", Eq Stencil.target Stencil.update_with_v)]
           false).
  reflexivity.
Defined.

Lemma forallb_flatten {A : Type} (p : A -> bool) (ls : list (list A)) :
  forallb (forallb p) ls = true -> forallb p (flatten ls) = true.
Proof.
  unfold flatten. induction ls as [|l ls IH]; simpl; [reflexivity|].
  intros H. apply andb_true_iff in H. destruct H as [Hl Hls].
  rewrite forallb_app, Hl, (IH Hls). reflexivity.
Qed.

Lemma comprehension_values_dicts (dicts : list (list (string * object))) :
  comprehension values (map PyDict dicts) = Return (map (map snd) dicts).
Proof.
  induction dicts as [|d rest IH]; simpl; [reflexivity|].
  rewrite IH. reflexivity.
Qed.

(** X3: the cost of a list of dicts of SymPy objects is the cost of the
    list of all their values, in order. *)
Theorem estimate_cost_list_of_dicts (dicts : list (list (string * object)))
    (estimate_functions : bool) :
  forallb (forallb sympy_object) (map (map snd) dicts) = true ->
  estimate_cost (PyList (map PyDict dicts)) estimate_functions
  = estimate_cost (PyList (flatten (map (map snd) dicts))) estimate_functions.
Proof.
  intros H. apply forallb_flatten in H.
  assert (Hd : unwrap_values (PyList (map PyDict dicts))
               = Return (PyList (flatten (map (map snd) dicts)))).
  { unfold unwrap_values. simpl. rewrite comprehension_values_dicts. reflexivity. }
  unfold estimate_cost.
  change (wrap_plain (PyList (map PyDict dicts)))
    with (@Return object (PyList (map PyDict dicts))).
  change (wrap_plain (PyList (flatten (map (map snd) dicts))))
    with (@Return object (PyList (flatten (map (map snd) dicts)))).
  cbv iota. rewrite Hd, (unwrap_values_sympy _ H). reflexivity.
Qed.

Lemma estimate_cost_list_of_dicts_witness :
  estimate_cost (PyList (map PyDict [[("a", Expr Stencil.update)];
                                     [("b", Eq Stencil.target Stencil.update_with_v)]]))
                true
  = estimate_cost (PyList (flatten (map (map snd)
                     [[("a", Expr Stencil.update)];
                      [("b", Eq Stencil.target Stencil.update_with_v)]]))) true.
Proof.
  apply (estimate_cost_list_of_dicts
           [[("a", Expr Stencil.update)];
            [("b", Eq Stencil.target Stencil.update_with_v)]] true).
  reflexivity.
Defined.

(** ** Lists of expressions *)

Lemma flatten_app {A : Type} (l m : list (list A)) :
  flatten (l ++ m) = flatten l ++ flatten m.
Proof. unfold flatten. apply concat_app. Qed.

(** X4: on a list of SymPy objects [estimate_cost] always returns a count,
    and the count of two lists joined is the sum of their counts; the empty
    list costs 0. *)
Theorem estimate_cost_additive (first_part second_part : list object)
    (estimate_functions : bool) :
  forallb sympy_object first_part = true ->
  forallb sympy_object second_part = true ->
  exists flops1 flops2 : Z,
    estimate_cost (PyList first_part) estimate_functions = (Return (Some flops1), [])
    /\ estimate_cost (PyList second_part) estimate_functions = (Return (Some flops2), [])
    /\ estimate_cost (PyList (first_part ++ second_part)) estimate_functions
       = (Return (Some (flops1 + flops2)%Z), [])
    /\ estimate_cost (PyList []) estimate_functions = (Return (Some 0%Z), []).
Proof.
  intros H1 H2.
  destruct (comprehension_rhs_sympy _ H1) as (exprs1 & E1).
  destruct (comprehension_rhs_sympy _ H2) as (exprs2 & E2).
  assert (H12 : forallb sympy_object (first_part ++ second_part) = true)
    by (rewrite forallb_app, H1, H2; reflexivity).
  assert (E12 : comprehension rhs_if_Equality (first_part ++ second_part)
                = Return (exprs1 ++ exprs2))
    by (rewrite comprehension_app, E1, E2; reflexivity).
  do 2 eexists.
  rewrite (estimate_cost_sympy_list _ _ _ H1 E1), (estimate_cost_sympy_list _ _ _ H2 E2),
    (estimate_cost_sympy_list _ _ _ H12 E12).
  rewrite map_app, flatten_app, sum_flops_app.
  repeat split.
Qed.

Lemma estimate_cost_additive_witness :
  exists flops1 flops2 : Z,
    estimate_cost (PyList [Expr Stencil.update]) false = (Return (Some flops1), [])
    /\ estimate_cost (PyList [Eq Stencil.target Stencil.update_with_v]) false
       = (Return (Some flops2), [])
    /\ estimate_cost (PyList ([Expr Stencil.update]
                              ++ [Eq Stencil.target Stencil.update_with_v])) false
       = (Return (Some (flops1 + flops2)%Z), [])
    /\ estimate_cost (PyList []) false = (Return (Some 0%Z), []).
Proof.
  apply (estimate_cost_additive [Expr Stencil.update]
           [Eq Stencil.target Stencil.update_with_v] false); reflexivity.
Defined.

(** X5: a list is given up on, with [None] and a warning that names the
    list as passed, as soon as one of its elements is not a SymPy object
    and one of its elements is not a dict; so is a list nested in a list,
    or a dict mixed with expressions. *)
Theorem estimate_cost_rejects_list (items : list object) (estimate_functions : bool)
    (i j : object) :
  In i items -> sympy_object i = false ->
  In j items -> is_dict j = false ->
  estimate_cost (PyList items) estimate_functions
  = (Return None, [warning (Cannot_estimate_cost_of (PyList items))]).
Proof.
  intros Hi Hni Hj Hnj.
  assert (Hv : comprehension values items = Raise AttributeError).
  { destruct (comprehension_raises values items j AttributeError Hj) as (e & He).
    - destruct j; try discriminate Hnj; reflexivity.
    - rewrite He. f_equal. apply (comprehension_values_raises _ _ He). }
  destruct (comprehension_raises rhs_if_Equality items i AttributeError Hi) as (e & He).
  { destruct i; try discriminate Hni; reflexivity. }
  unfold estimate_cost, unwrap_values, operations_of. simpl.
  rewrite Hv. simpl. rewrite He. reflexivity.
Qed.

Lemma estimate_cost_rejects_list_witness :
  estimate_cost (PyList [Expr Stencil.update; PyList [Expr Stencil.update]]) false
  = (Return None,
     [warning (Cannot_estimate_cost_of
                 (PyList [Expr Stencil.update; PyList [Expr Stencil.update]]))]).
Proof.
  apply (estimate_cost_rejects_list
           [Expr Stencil.update; PyList [Expr Stencil.update]] false
           (PyList [Expr Stencil.update]) (Expr Stencil.update));
    simpl; auto.
Defined.

(** ** Totals of [count] *)

Lemma Counter_total_add (k : expr) (n : nat) (c : Counter) :
  Counter_total (Counter_add k n c) = n + Counter_total c.
Proof.
  induction c as [|[k0 v] rest IH]; simpl; [reflexivity|].
  destruct (expr_eqb k k0); simpl; [lia | rewrite IH; lia].
Qed.

Lemma Counter_total_of (l : list expr) (c : Counter) :
  Counter_total (fold_left (fun c e => Counter_add e 1 c) l c) = len l + Counter_total c.
Proof.
  unfold len. revert c. induction l as [|x l IH]; intros c; simpl; [reflexivity|].
  rewrite IH, Counter_total_add. lia.
Qed.

Lemma Counter_total_update (other c : Counter) :
  Counter_total (Counter_update c other) = Counter_total c + Counter_total other.
Proof.
  unfold Counter_update. revert c.
  induction other as [|[k v] rest IH]; intros c; simpl; [lia|].
  rewrite IH, Counter_total_add. lia.
Qed.

Lemma Counter_total_count_from (exprs : list expr) (query : expr -> bool) (c : Counter) :
  Counter_total (count_from c exprs query) = Counter_total c + matches exprs query.
Proof.
  revert c. induction exprs as [|e exprs IH]; intros c; simpl; [lia|].
  change (fold_left _ exprs ?m) with (count_from m exprs query).
  rewrite IH, Counter_total_update.
  unfold Counter_of. rewrite Counter_total_of. simpl. lia.
Qed.

(** X6: no match is lost or invented by [count]: the counts of the mapper
    it returns add up to the number of matches the search found over all the
    trees. *)
Theorem count_conserves_matches (exprs : list expr) (query : expr -> bool) :
  Counter_total (count exprs query) = matches exprs query.
Proof.
  change (count exprs query) with (count_from [] exprs query).
  rewrite Counter_total_count_from. reflexivity.
Qed.

(** X7: counting two batches of trees together gives, for every node, the
    sum of the counts of the batches counted apart; the order of the trees
    inside the batches does not matter for it. *)
Theorem count_of_batches (batch1 batch2 : list expr) (query : expr -> bool) (k : expr) :
  Counter_value (count (batch1 ++ batch2) query) k
  = Counter_value (count batch1 query) k + Counter_value (count batch2 query) k
  /\ Counter_value (count (batch1 ++ batch2) query) k
     = Counter_value (count (batch2 ++ batch1) query) k.
Proof.
  assert (V : forall exprs, Counter_value (count exprs query) k
                            = if query k then total_occurrences k exprs else 0).
  { intros exprs.
    destruct (count_acc exprs query [] k (NoDup_nil _) (Forall_nil _)) as (Hv & _).
    exact Hv. }
  rewrite !V, !total_occurrences_app. destruct (query k); lia.
Qed.

(** ** What [estimate_memory] accepts *)





(** ** Loads and stores *)

Lemma set_of_NoDup_id (l : list expr) : NoDup l -> set_of l = l.
Proof.
  induction 1 as [|x l Hx _ IH]; simpl; [reflexivity|].
  destruct (mem x l) eqn:M; [apply mem_In in M; contradiction|].
  rewrite IH. reflexivity.
Qed.

Lemma set_of_idempotent (l : list expr) : set_of (set_of l) = set_of l.
Proof. apply set_of_NoDup_id, set_of_NoDup. Qed.

Lemma mem_app (x : expr) (l m : list expr) : mem x (l ++ m) = mem x l || mem x m.
Proof. unfold mem. apply existsb_app. Qed.

(** The cardinality of a union: the keys in both sets are counted once. *)
Lemma set_union_cardinality (a b : list expr) :
  NoDup a -> NoDup b ->
  len (set_union a b) + len (filter (fun k => mem k b) a) = len a + len b.
Proof.
  unfold set_union, len. intros Ha Hb.
  induction Ha as [|x a Hx Ha IH]; simpl.
  - rewrite (set_of_NoDup_id _ Hb). lia.
  - rewrite mem_app.
    assert (mem x a = false) as ->.
    { destruct (mem x a) eqn:M; [apply mem_In in M; contradiction | reflexivity]. }
    simpl. destruct (mem x b); simpl; lia.
Qed.

Lemma ideal_modes (equations : list (expr * expr)) :
  estimate_memory (PyList (map equation equations)) "ideal"
  = Return (len (set_union (ideal_read_keys equations) (ideal_write_keys equations)))
  /\ estimate_memory (PyList (map equation equations)) "ideal_with_stores"
     = Return (len (ideal_read_keys equations) + len (ideal_write_keys equations)).
Proof.
  rewrite !estimate_memory_equations by (simpl; auto).
  rewrite !traffic_equations. cbv zeta.
  change (mode_filter "ideal") with time_dependent.
  change (mode_filter "ideal_with_stores") with time_dependent.
  change ("ideal" =? "ideal")%string with true.
  change ("ideal_with_stores" =? "ideal")%string with false.
  cbv iota. fold (ideal_read_keys equations). fold (ideal_write_keys equations).
  unfold ideal_read_keys at 1, ideal_write_keys at 1.
  rewrite !set_of_idempotent. split; reflexivity.
Qed.

(** X9: on every list of equations, ideal_with_stores exceeds ideal by
    exactly the number of keys that are both read and written, each of
    which it counts as a load and as a store; so it is at most twice the
    ideal estimate. *)
Theorem stores_count_shared_keys_twice (equations : list (expr * expr)) :
  exists ideal stores : nat,
    estimate_memory (PyList (map equation equations)) "ideal" = Return ideal
    /\ estimate_memory (PyList (map equation equations)) "ideal_with_stores" = Return stores
    /\ stores = ideal + len (filter (fun k => mem k (ideal_write_keys equations))
                                    (ideal_read_keys equations))
    /\ stores <= 2 * ideal.
Proof.
  destruct (ideal_modes equations) as [-> ->].
  do 2 eexists. split; [reflexivity|]. split; [reflexivity|].
  pose proof (set_union_cardinality (ideal_read_keys equations)
                (ideal_write_keys equations) (set_of_NoDup _) (set_of_NoDup _)) as Hc.
  assert (Hr : len (ideal_read_keys equations)
               <= len (set_union (ideal_read_keys equations) (ideal_write_keys equations))).
  { apply NoDup_incl_length; [apply set_of_NoDup|].
    intros k Hk. apply set_of_In, in_or_app. left. exact Hk. }
  assert (Hw : len (ideal_write_keys equations)
               <= len (set_union (ideal_read_keys equations) (ideal_write_keys equations))).
  { apply NoDup_incl_length; [apply set_of_NoDup|].
    intros k Hk. apply set_of_In, in_or_app. right. exact Hk. }
  lia.
Qed.

(** ** The time filter *)

Lemma filter_none {A : Type} (p : A -> bool) (l : list A) :
  (forall x, In x l -> p x = false) -> filter p l = [].
Proof.
  induction l as [|x l IH]; simpl; [reflexivity|]. intros H.
  rewrite (H x (or_introl eq_refl)). apply IH. intros y Hy. apply H. right. exact Hy.
Qed.

Lemma filter_every {A : Type} (p : A -> bool) (l : list A) :
  (forall x, In x l -> p x = true) -> filter p l = l.
Proof.
  induction l as [|x l IH]; simpl; [reflexivity|]. intros H.
  rewrite (H x (or_introl eq_refl)). f_equal. apply IH. intros y Hy. apply H. right. exact Hy.
Qed.

Lemma realistic_mode (equations : list (expr * expr)) :
  estimate_memory (PyList (map equation equations)) "realistic"
  = Return (len (set_of (map key (reads_of equations)))
            + len (set_of (map key (writes_of equations)))).
Proof.
  rewrite estimate_memory_equations by (simpl; auto).
  rewrite traffic_equations. cbv zeta.
  change (mode_filter "realistic") with (fun s => truthy s).
  change ("realistic" =? "ideal")%string with false. cbv iota.
  rewrite !filter_truthy by (apply reads_of_Indexed || apply writes_of_Indexed).
  reflexivity.
Qed.

(** X10: when no access of the equations has the time dimension among its
    atoms, the two idealized modes estimate 0 whatever the realistic mode
    counts; when every access has it, ideal_with_stores and realistic
    agree. *)
Theorem time_filter_extremes (equations : list (expr * expr)) :
  ((forall s, In s (reads_of equations ++ writes_of equations) ->
              time_dependent s = false) ->
   estimate_memory (PyList (map equation equations)) "ideal" = Return 0
   /\ estimate_memory (PyList (map equation equations)) "ideal_with_stores" = Return 0)
  /\ ((forall s, In s (reads_of equations ++ writes_of equations) ->
                 time_dependent s = true) ->
      estimate_memory (PyList (map equation equations)) "ideal_with_stores"
      = estimate_memory (PyList (map equation equations)) "realistic").
Proof.
  destruct (ideal_modes equations) as [-> ->]. rewrite realistic_mode.
  unfold ideal_read_keys, ideal_write_keys. split; intros H.
  - rewrite !filter_none by (intros s Hs; apply H, in_or_app; auto).
    split; reflexivity.
  - rewrite !filter_every by (intros s Hs; apply H, in_or_app; auto).
    reflexivity.
Qed.

Lemma time_filter_extremes_witness :
  (estimate_memory (PyList (map equation [(Stencil.v_x, Stencil.v_x)])) "ideal" = Return 0
   /\ estimate_memory (PyList (map equation [(Stencil.v_x, Stencil.v_x)]))
                      "ideal_with_stores" = Return 0)
  /\ estimate_memory (PyList (map equation [(Stencil.target, Stencil.update)]))
                     "ideal_with_stores"
     = estimate_memory (PyList (map equation [(Stencil.target, Stencil.update)]))
                       "realistic".
Proof.
  split.
  - apply (proj1 (time_filter_extremes [(Stencil.v_x, Stencil.v_x)])).
    intros s Hs. vm_compute in Hs.
    destruct Hs as [<-|[<-|[]]]; reflexivity.
  - apply (proj2 (time_filter_extremes [(Stencil.target, Stencil.update)])).
    intros s Hs. vm_compute in Hs.
    destruct Hs as [<-|[<-|[<-|[]]]]; reflexivity.
Defined.

(** ** Order and repetition of the equations *)

Lemma same_elements_set_of (l m : list expr) :
  same_elements l m -> len (set_of l) = len (set_of m).
Proof.
  intros H. apply Nat.le_antisymm; apply set_of_incl_length;
    intros x Hx; apply H; exact Hx.
Qed.

Lemma same_elements_map_filter (p : expr -> bool) (l m : list expr) :
  same_elements l m -> same_elements (map key (filter p l)) (map key (filter p m)).
Proof.
  intros H k. rewrite !in_map_iff.
  split; intros (s & Hk & Hs); exists s; (split; [exact Hk|]);
    apply filter_In in Hs; apply filter_In; (split; [apply H|]); apply Hs.
Qed.

Lemma same_elements_accesses (f : expr * expr -> list expr)
    (equations1 equations2 : list (expr * expr)) :
  same_elements equations1 equations2 ->
  same_elements (set_of (flatten (map f equations1))) (set_of (flatten (map f equations2))).
Proof.
  intros H s. unfold flatten. rewrite !set_of_In, !in_concat.
  split; intros (l & Hl & Hs); exists l; (split; [|exact Hs]);
    apply in_map_iff in Hl; destruct Hl as (e & <- & He);
    apply in_map; apply H; exact He.
Qed.

Lemma same_elements_union (a b a' b' : list expr) :
  same_elements a a' -> same_elements b b' ->
  len (set_union a b) = len (set_union a' b').
Proof.
  intros Ha Hb. apply same_elements_set_of. intros x. rewrite !in_app_iff.
  rewrite (Ha x), (Hb x). reflexivity.
Qed.

Lemma same_elements_set (l m : list expr) :
  same_elements l m -> same_elements (set_of l) (set_of m).
Proof. intros H x. rewrite !set_of_In. apply H. Qed.

(** X11: under each of the three modes the estimate depends only on which
    equations are in the list: writing an equation twice or listing the
    equations in another order does not change it. *)
Theorem estimate_memory_set_semantics (mode : string)
    (equations1 equations2 : list (expr * expr)) :
  In mode modes ->
  same_elements equations1 equations2 ->
  estimate_memory (PyList (map equation equations1)) mode
  = estimate_memory (PyList (map equation equations2)) mode.
Proof.
  intros Hmode Hsame. rewrite !estimate_memory_equations by exact Hmode.
  rewrite !traffic_equations. cbv zeta. f_equal.
  pose proof (same_elements_map_filter (mode_filter mode) _ _
                (same_elements_accesses (fun e => retrieve_indexed (snd e)) _ _ Hsame))
    as Hr.
  pose proof (same_elements_map_filter (mode_filter mode) _ _
                (same_elements_accesses (fun e => retrieve_indexed (fst e)) _ _ Hsame))
    as Hw.
  fold (reads_of equations1) in Hr. fold (reads_of equations2) in Hr.
  fold (writes_of equations1) in Hw. fold (writes_of equations2) in Hw.
  destruct (mode =? "ideal")%string.
  - apply same_elements_union; apply same_elements_set, same_elements_set; assumption.
  - rewrite (same_elements_set_of _ _ Hr), (same_elements_set_of _ _ Hw). reflexivity.
Qed.

Lemma estimate_memory_set_semantics_witness :
  estimate_memory
    (PyList (map equation [(Stencil.target, Stencil.update);
                           (Stencil.v_x, Stencil.update_with_v);
                           (Stencil.target, Stencil.update)])) "ideal"
  = estimate_memory
      (PyList (map equation [(Stencil.v_x, Stencil.update_with_v);
                             (Stencil.target, Stencil.update)])) "ideal".
Proof.
  apply (estimate_memory_set_semantics "ideal").
  - simpl. auto.
  - intros e. simpl. tauto.
Defined.

(** ** Reuse within an array *)

Lemma set_of_map_length (f : expr -> expr) (l : list expr) :
  len (set_of (map f l)) <= len (set_of l).
Proof.
  unfold len. rewrite <- (length_map f (set_of l)).
  apply NoDup_incl_length; [apply set_of_NoDup|].
  intros y Hy. apply set_of_In, in_map_iff in Hy. destruct Hy as (x & <- & Hx).
  apply in_map, set_of_In. exact Hx.
Qed.

Lemma array_of_key (l : list expr) : map array_of (map key l) = map array_of l.
Proof.
  rewrite map_map. apply map_ext. intros s.
  destruct s as [n t|z|lb|b idx|kind xs|cls xs]; try reflexivity.
  simpl. destruct (irregular idx); reflexivity.
Qed.

Lemma keys_between (l : list expr) :
  len (set_of (map array_of l)) <= len (set_of (map key l))
  /\ len (set_of (map key l)) <= len (set_of l)
  /\ ((forall s, In s l -> irregular_access s = false) ->
      len (set_of (map key l)) = len (set_of (map array_of l))).
Proof.
  split; [|split].
  - rewrite <- array_of_key. apply set_of_map_length.
  - apply set_of_map_length.
  - intros H. f_equal. f_equal. apply map_ext_in. intros s Hs. specialize (H s Hs).
    destruct s; try reflexivity. simpl in *. rewrite H. reflexivity.
Qed.

Lemma key_cases (s : expr) :
  key s = if irregular_access s then s else array_of s.
Proof.
  destruct s as [n t|z|l|b idx|kind xs|cls xs]; try reflexivity.
Qed.

(** The keys are the bases of the regular accesses and the irregular
    accesses themselves. *)
Lemma keys_split (l : list expr) :
  same_elements (map key l)
    (map array_of (filter (fun s => negb (irregular_access s)) l)
     ++ filter irregular_access l).
Proof.
  intros k. rewrite in_app_iff, !in_map_iff. split.
  - intros (s & <- & Hs). rewrite key_cases.
    destruct (irregular_access s) eqn:E.
    + right. apply filter_In. split; assumption.
    + left. exists s. split; [reflexivity|]. apply filter_In. rewrite E. split; auto.
  - intros [(s & <- & Hs)|Hk].
    + apply filter_In in Hs. destruct Hs as [Hs E]. apply negb_true_iff in E.
      exists s. split; [rewrite key_cases, E; reflexivity | exact Hs].
    + apply filter_In in Hk. destruct Hk as [Hk E].
      exists k. split; [rewrite key_cases, E; reflexivity | exact Hk].
Qed.

Lemma set_of_app_disjoint (a b : list expr) :
  (forall x, In x a -> ~ In x b) ->
  len (set_of (a ++ b)) = len (set_of a) + len (set_of b).
Proof.
  unfold len. induction a as [|x a IH]; intros Hd; simpl; [reflexivity|].
  rewrite mem_app.
  assert (mem x b = false) as ->.
  { destruct (mem x b) eqn:M; [|reflexivity]. apply mem_In in M.
    exfalso. apply (Hd x); [left; reflexivity | exact M]. }
  rewrite orb_false_r.
  assert (IH' : List.length (set_of (a ++ b))
                = List.length (set_of a) + List.length (set_of b))
    by (apply IH; intros y Hy; apply Hd; right; exact Hy).
  destruct (mem x a); simpl; rewrite IH'; reflexivity.
Qed.

Lemma array_of_not_irregular (s : expr) :
  irregular_access s = false -> irregular_access (array_of s) = false.
Proof. destruct s; intros H; try exact H; reflexivity. Qed.

(** The number of keys of a set of accesses: one per array accessed
    regularly, and one per irregular access. *)
Lemma keys_cardinality (l : list expr) :
  NoDup l ->
  len (set_of (map key l))
  = len (set_of (map array_of (filter (fun s => negb (irregular_access s)) l)))
    + len (filter irregular_access l).
Proof.
  intros Hnd. rewrite (same_elements_set_of _ _ (keys_split l)).
  rewrite set_of_app_disjoint.
  - rewrite (set_of_NoDup_id (filter irregular_access l)) by (apply NoDup_filter; exact Hnd).
    reflexivity.
  - intros x Hx Hy. apply in_map_iff in Hx. destruct Hx as (s & <- & Hs).
    apply filter_In in Hs. destruct Hs as [_ E]. apply negb_true_iff in E.
    apply filter_In in Hy. destruct Hy as [_ Hy].
    rewrite (array_of_not_irregular s E) in Hy. discriminate Hy.
Qed.

(** X12: on every list of equations the realistic estimate is, for the
    reads and for the writes, the number of distinct arrays accessed
    regularly plus the number of distinct irregular accesses; it lies
    between the number of distinct arrays read plus written and the number
    of distinct accesses read plus written, and it is the former when no
    access is irregular, so that further offsets into an array already
    accessed cost nothing. *)
Theorem realistic_between_arrays_and_accesses (equations : list (expr * expr)) :
  exists realistic : nat,
    estimate_memory (PyList (map equation equations)) "realistic" = Return realistic
    /\ realistic
       = (len (set_of (map array_of (filter (fun s => negb (irregular_access s))
                                            (reads_of equations))))
          + len (filter irregular_access (reads_of equations)))
         + (len (set_of (map array_of (filter (fun s => negb (irregular_access s))
                                              (writes_of equations))))
            + len (filter irregular_access (writes_of equations)))
    /\ len (set_of (map array_of (reads_of equations)))
       + len (set_of (map array_of (writes_of equations))) <= realistic
    /\ realistic <= len (reads_of equations) + len (writes_of equations)
    /\ ((forall s, In s (reads_of equations ++ writes_of equations) ->
                   irregular_access s = false) ->
        realistic = len (set_of (map array_of (reads_of equations)))
                    + len (set_of (map array_of (writes_of equations)))).
Proof.
  rewrite realistic_mode. eexists. split; [reflexivity|].
  destruct (keys_between (reads_of equations)) as (R1 & R2 & R3).
  destruct (keys_between (writes_of equations)) as (W1 & W2 & W3).
  assert (Sr : set_of (reads_of equations) = reads_of equations)
    by apply set_of_idempotent.
  assert (Sw : set_of (writes_of equations) = writes_of equations)
    by apply set_of_idempotent.
  rewrite Sr in R2. rewrite Sw in W2.
  split; [|split; [lia|]; split; [lia|]].
  - rewrite (keys_cardinality (reads_of equations)) by apply set_of_NoDup.
    rewrite (keys_cardinality (writes_of equations)) by apply set_of_NoDup.
    reflexivity.
  - intros H. rewrite R3, W3; [reflexivity| |]; intros s Hs; apply H, in_or_app; auto.
Qed.

Lemma realistic_between_arrays_and_accesses_witness :
  (exists realistic : nat,
    estimate_memory (PyList (map equation [(Stencil.target, Stencil.update_with_v)]))
                    "realistic" = Return realistic
    /\ realistic
       = len (set_of (map array_of (reads_of [(Stencil.target, Stencil.update_with_v)])))
         + len (set_of (map array_of (writes_of [(Stencil.target, Stencil.update_with_v)]))))
  /\ (exists realistic : nat,
        estimate_memory (PyList (map equation Gather.equations)) "realistic"
        = Return realistic
        /\ realistic = (2 + 1) + (1 + 0)).
Proof.
  split.
  - destruct (realistic_between_arrays_and_accesses
                [(Stencil.target, Stencil.update_with_v)])
      as (realistic & Hr & _ & _ & _ & Hregular).
    exists realistic. split; [exact Hr|].
    apply Hregular. intros s Hs. vm_compute in Hs.
    destruct Hs as [<-|[<-|[<-|[<-|[]]]]]; reflexivity.
  - destruct (realistic_between_arrays_and_accesses Gather.equations)
      as (realistic & Hr & Hexact & _).
    exists realistic. split; [exact Hr|]. rewrite Hexact. reflexivity.
Defined.
